(** * bench_ws: a WebSocket echo micro-benchmark

    A shallow embedding of [crossbench/python/bench_ws.py].  The script
    starts an in-process echo server, connects one client, performs a
    warm-up round trip and then [iters] timed round trips of a JSON-RPC-like
    message, and prints two summary lines.

    The script is a thin layer of glue over the interpreter and three
    libraries ([websockets], [json]/[orjson], [asyncio]).  The glue is
    embedded as functions in a state-and-exception monad over a [world]
    that holds both endpoints of the one connection, the oracles of the
    operating system (clock, free port, pip, network faults) and the trace
    of what the process did. *)

From Stdlib Require Import ZArith String Ascii Strings.Byte List Bool Lia.
From Stdlib Require Import DecimalString QArith.
From Stdlib Require DecimalPos DecimalZ.
Import ListNotations.

Set Implicit Arguments.
Set Warnings "-register-all".
#[local] Open Scope Z_scope.
#[local] Open Scope list_scope.

(** ** Python values used by the script *)

(** The exceptions that can reach the script.  [CancelledError] and
    [KeyboardInterrupt] derive from [BaseException] only, so that
    [except Exception] does not catch them. *)
Inductive exn : Type :=
| ZeroDivisionError
| OSError
| ConnectionClosedOK
| ConnectionClosedError
| CalledProcessError (returncode : Z)
| FileNotFoundError
| CancelledError
| KeyboardInterrupt.

Definition is_Exception (e : exn) : bool :=
  match e with
  | CancelledError | KeyboardInterrupt => false
  | _ => true
  end.

(** The fragment of JSON-serialisable objects the script builds: [int],
    [str] and [dict] with string keys (insertion ordered). *)
Inductive json : Type :=
| JInt (n : Z)
| JStr (s : string)
| JObj (fields : list (string * json)).

(** A WebSocket message is a text frame ([str]) or a binary frame
    ([bytes]). *)
Inductive frame : Type :=
| Text (s : string)
| Binary (b : list byte).

(** [s * n] on [str]: the empty string for [n <= 0]. *)
Fixpoint str_times (s : string) (k : nat) : string :=
  match k with
  | O => EmptyString
  | S k' => (s ++ str_times s k')%string
  end.

Definition str_mul (s : string) (n : Z) : string := str_times s (Z.to_nat n).

(** [str(n)] and [f"{n}"] for an [int]. *)
Definition str_int (n : Z) : string := NilZero.string_of_int (Z.to_int n).

(** [range(n)]: empty for [n <= 0]. *)
Definition py_range (n : Z) : list Z := map Z.of_nat (seq 0 (Z.to_nat n)).

(** How a computation ends: with a value, with a Python exception on its
    way up, or suspended at an [await] that nothing has completed yet. *)
Inductive result (A : Type) : Type :=
| Ok (a : A)
| Raise (e : exn)
| Pending.
Arguments Ok {A} a.
Arguments Raise {A} e.
Arguments Pending {A}.

(** The two endpoints of the connection. *)
Inductive side : Type := ClientSide | ServerSide.

Definition peer (s : side) : side :=
  match s with ClientSide => ServerSide | ServerSide => ClientSide end.

Inductive stream : Type := Stdout | Stderr.

(** ** What the interpreter and the libraries provide

    Floating-point arithmetic and the two serialisers are library code; the
    embedding takes them as an interface, so that nothing below depends on
    how binary64 rounds or on how a serialiser escapes a string. *)
Class Runtime : Type := {
  pyfloat : Type;
  (** [float(n)] *)
  float_of_int : Z -> pyfloat;
  (** the literal [1e9] *)
  float_1e9 : pyfloat;
  (** [x * y] and [x / y] on floats, the latter for [y] other than zero *)
  float_mul : pyfloat -> pyfloat -> pyfloat;
  float_div : pyfloat -> pyfloat -> pyfloat;
  (** [a / b] on two ints (true division), for [b] other than zero *)
  int_truediv : Z -> Z -> pyfloat;
  (** whether [import orjson] succeeded (lines 26-31) *)
  has_orjson : bool;
  (** [orjson.dumps] and [json.dumps] *)
  orjson_dumps : json -> list byte;
  json_dumps : json -> string
}.

(** ** Lines 64-65: the message template *)

Definition payload_str (payload : Z) : string := str_mul "x" payload.

Definition msg_obj (payload : Z) : json :=
  JObj [ ("id"%string, JInt 1);
         ("method"%string, JStr "test");
         ("params"%string, JObj [ ("data"%string, JStr (payload_str payload)) ]) ].




(** ** A reference runtime

    One runtime on which the model runs: exact rational arithmetic stands
    for binary64, and the two serialisers follow the output format of
    [json.dumps] with its default arguments and of [orjson.dumps], for
    strings of code points below 256. *)
Module RefRuntime.

Definition quote : ascii := ascii_of_nat 34.
Definition backslash : ascii := ascii_of_nat 92.

Definition hex_digit (n : nat) : ascii :=
  ascii_of_nat (if Nat.ltb n 10 then 48 + n else 87 + n).

Definition str1 (c : ascii) : string := String c EmptyString.

(** [\u00XX]. *)
Definition u00 (c : ascii) : string :=
  let n := nat_of_ascii c in
  String backslash
    ("u00" ++ str1 (hex_digit (Nat.div n 16)) ++ str1 (hex_digit (Nat.modulo n 16)))%string.

Definition short_escape (c : ascii) : option ascii :=
  match nat_of_ascii c with
  | 8%nat => Some "b"%char
  | 9%nat => Some "t"%char
  | 10%nat => Some "n"%char
  | 12%nat => Some "f"%char
  | 13%nat => Some "r"%char
  | 34%nat => Some quote
  | 92%nat => Some backslash
  | _ => None
  end.

(** [json.dumps] keeps the printable ASCII characters and escapes the
    rest. *)
Definition json_escape_char (c : ascii) : string :=
  match short_escape c with
  | Some e => String backslash (str1 e)
  | None =>
      let n := nat_of_ascii c in
      if (Nat.leb 32 n && Nat.leb n 126)%bool then str1 c else u00 c
  end.

(** [orjson.dumps] escapes the control characters and writes the rest as
    UTF-8. *)
Definition orjson_escape_char (c : ascii) : list byte :=
  match short_escape c with
  | Some e => [byte_of_ascii backslash; byte_of_ascii e]
  | None =>
      let n := nat_of_ascii c in
      if Nat.ltb n 32 then list_byte_of_string (u00 c)
      else if Nat.ltb n 128 then [byte_of_ascii c]
      else [byte_of_ascii (ascii_of_nat (192 + Nat.div n 64));
            byte_of_ascii (ascii_of_nat (128 + Nat.modulo n 64))]
  end.

Fixpoint json_escape (s : string) : string :=
  match s with
  | EmptyString => EmptyString
  | String c rest => (json_escape_char c ++ json_escape rest)%string
  end.

Fixpoint orjson_escape (s : string) : list byte :=
  match s with
  | EmptyString => []
  | String c rest => orjson_escape_char c ++ orjson_escape rest
  end.

Definition json_quoted (s : string) : string :=
  (str1 quote ++ json_escape s ++ str1 quote)%string.

Definition orjson_quoted (s : string) : list byte :=
  byte_of_ascii quote :: orjson_escape s ++ [byte_of_ascii quote].

Fixpoint ref_json_dumps (o : json) : string :=
  match o with
  | JInt n => str_int n
  | JStr s => json_quoted s
  | JObj fields =>
      let item (kv : string * json) : string :=
        (json_quoted (fst kv) ++ ": " ++ ref_json_dumps (snd kv))%string in
      ("{" ++ String.concat ", " (map item fields) ++ "}")%string
  end.

Fixpoint join_bytes (sep : list byte) (l : list (list byte)) : list byte :=
  match l with
  | [] => []
  | [x] => x
  | x :: rest => x ++ sep ++ join_bytes sep rest
  end.

Fixpoint ref_orjson_dumps (o : json) : list byte :=
  match o with
  | JInt n => list_byte_of_string (str_int n)
  | JStr s => orjson_quoted s
  | JObj fields =>
      let item (kv : string * json) : list byte :=
        orjson_quoted (fst kv) ++ list_byte_of_string ":" ++ ref_orjson_dumps (snd kv) in
      list_byte_of_string "{" ++ join_bytes (list_byte_of_string ",") (map item fields)
        ++ list_byte_of_string "}"
  end.

Definition runtime (with_orjson : bool) : Runtime :=
  {| pyfloat := Q;
     float_of_int := inject_Z;
     float_1e9 := inject_Z 1000000000;
     float_mul := Qmult;
     float_div := Qdiv;
     int_truediv := fun a b => Qdiv (inject_Z a) (inject_Z b);
     has_orjson := with_orjson;
     orjson_dumps := ref_orjson_dumps;
     json_dumps := ref_json_dumps |}.

End RefRuntime.

Section Bench.

Context {RT : Runtime}.

(** Lines 67-72: the serialiser picked at start-up.  [json.dumps] escapes
    every non-ASCII character, so that [.encode("utf-8")] maps its result
    byte for byte. *)
Definition encode (o : json) : list byte :=
  if has_orjson then orjson_dumps o else list_byte_of_string (json_dumps o).

(** Lines 88-90: the metrics.  [total_ns / iters] divides two ints;
    [1e9 * iters / total_ns] multiplies a float by an int and divides the
    product by an int.  Either division raises on a zero divisor. *)
Definition ns_per_of (total_ns iters : Z) : result pyfloat :=
  if iters =? 0 then Raise ZeroDivisionError
  else Ok (int_truediv total_ns iters).

Definition ops_per_sec_of (total_ns iters : Z) : result pyfloat :=
  if total_ns =? 0 then Raise ZeroDivisionError
  else Ok (float_div (float_mul float_1e9 (float_of_int iters)) (float_of_int total_ns)).

(** ** The process and its surroundings *)

(** What the script prints.  The metrics line formats three floats
    ([.4f], [.0f], [.0f]); it is kept as the three values. *)
Inductive out_line : Type :=
| Line (s : string)
| FailedInstall (e : exn)
| MetricsLine (total_s ns_per ops_per_sec : pyfloat).

(** What the process does, in order.  [EvEncode] records a call of the
    serialiser; it has no effect outside the process. *)
Inductive event : Type :=
| EvPrint (f : stream) (l : out_line)
| EvSubprocess (argv : list string)
| EvProbePort (port : Z)
| EvServe (host : string) (port : Z)
| EvServeClose
| EvConnect (uri : string)
| EvClientClose
| EvEncode (o : json)
| EvSend (s : side) (m : frame)
| EvRecv (s : side) (m : frame)
| EvClock (t : Z).

Record world : Type := mkWorld {
  (** oracles, fixed during a run *)
  timer : nat -> Z;              (* successive readings of perf_counter_ns *)
  os_port : Z;                   (* the port bind(("127.0.0.1", 0)) obtains *)
  can_bind : string -> Z -> bool;(* whether the server can listen there *)
  pip_result : option exn;       (* how the pip subprocess ends *)
  faults : nat -> option exn;    (* the network operation at which the link breaks *)
  (** state *)
  clock_reads : nat;
  netops : nat;
  link : option exn;             (* None: open; Some e: closed, I/O raises e *)
  listening : option (string * Z);
  handler_alive : bool;          (* the handler task of the connection is running *)
  inbox_server : list frame;     (* frames sent by the client, not yet read *)
  inbox_client : list frame;     (* frames sent by the server, not yet read *)
  server_log : list exn;         (* exceptions that escaped the handler *)
  trace : list event
}.

Definition inbox (s : side) (w : world) : list frame :=
  match s with ClientSide => inbox_client w | ServerSide => inbox_server w end.

Definition set_clock_reads (n : nat) (w : world) : world :=
  mkWorld (timer w) (os_port w) (can_bind w) (pip_result w) (faults w)
          n (netops w) (link w) (listening w) (handler_alive w)
          (inbox_server w) (inbox_client w) (server_log w) (trace w).

Definition set_netops (n : nat) (w : world) : world :=
  mkWorld (timer w) (os_port w) (can_bind w) (pip_result w) (faults w)
          (clock_reads w) n (link w) (listening w) (handler_alive w)
          (inbox_server w) (inbox_client w) (server_log w) (trace w).

Definition set_link (l : option exn) (w : world) : world :=
  mkWorld (timer w) (os_port w) (can_bind w) (pip_result w) (faults w)
          (clock_reads w) (netops w) l (listening w) (handler_alive w)
          (inbox_server w) (inbox_client w) (server_log w) (trace w).

Definition set_listening (l : option (string * Z)) (w : world) : world :=
  mkWorld (timer w) (os_port w) (can_bind w) (pip_result w) (faults w)
          (clock_reads w) (netops w) (link w) l (handler_alive w)
          (inbox_server w) (inbox_client w) (server_log w) (trace w).

Definition set_handler_alive (b : bool) (w : world) : world :=
  mkWorld (timer w) (os_port w) (can_bind w) (pip_result w) (faults w)
          (clock_reads w) (netops w) (link w) (listening w) b
          (inbox_server w) (inbox_client w) (server_log w) (trace w).

Definition set_inbox (s : side) (q : list frame) (w : world) : world :=
  match s with
  | ServerSide =>
      mkWorld (timer w) (os_port w) (can_bind w) (pip_result w) (faults w)
              (clock_reads w) (netops w) (link w) (listening w) (handler_alive w)
              q (inbox_client w) (server_log w) (trace w)
  | ClientSide =>
      mkWorld (timer w) (os_port w) (can_bind w) (pip_result w) (faults w)
              (clock_reads w) (netops w) (link w) (listening w) (handler_alive w)
              (inbox_server w) q (server_log w) (trace w)
  end.

Definition set_server_log (l : list exn) (w : world) : world :=
  mkWorld (timer w) (os_port w) (can_bind w) (pip_result w) (faults w)
          (clock_reads w) (netops w) (link w) (listening w) (handler_alive w)
          (inbox_server w) (inbox_client w) l (trace w).

Definition log (ev : event) (w : world) : world :=
  mkWorld (timer w) (os_port w) (can_bind w) (pip_result w) (faults w)
          (clock_reads w) (netops w) (link w) (listening w) (handler_alive w)
          (inbox_server w) (inbox_client w) (server_log w) (trace w ++ [ev]).

(** ** The monad: state, exceptions and suspension

    A [Pending] task is the handler waiting for the next frame, or a
    client waiting for ever. *)
Definition M (A : Type) : Type := world -> result A * world.

Definition ret {A} (a : A) : M A := fun w => (Ok a, w).

Definition raise {A} (e : exn) : M A := fun w => (Raise e, w).

Definition bind {A B} (m : M A) (k : A -> M B) : M B :=
  fun w =>
    match m w with
    | (Ok a, w1) => k a w1
    | (Raise e, w1) => (Raise e, w1)
    | (Pending, w1) => (Pending, w1)
    end.

Notation "x <- m ;; k" := (bind m (fun x => k))
  (at level 100, m at next level, right associativity).
Notation "m ;;; k" := (bind m (fun _ => k))
  (at level 100, right associativity).

(** [try: body / except Exception as e: handler e]. *)
Definition try_except {A} (body : M A) (handler : exn -> M A) : M A :=
  fun w =>
    match body w with
    | (Raise e, w1) => if is_Exception e then handler e w1 else (Raise e, w1)
    | other => other
    end.

(** [async with cm as x: body x]: the exit runs however the body ends,
    and an exception of the body goes on after it. *)
Definition async_with {A B} (enter : M A) (leave : M unit) (body : A -> M B) : M B :=
  x <- enter ;;
  fun w =>
    match body x w with
    | (Ok b, w1) => (leave ;;; ret b) w1
    | (Raise e, w1) => (leave ;;; raise e) w1
    | (Pending, w1) => (Pending, w1)
    end.

(** [for x in l: body x]. *)
Fixpoint for_each {A} (l : list A) (body : A -> M unit) : M unit :=
  match l with
  | [] => ret tt
  | x :: rest => body x ;;; for_each rest body
  end.

Definition emit (ev : event) : M unit := fun w => (Ok tt, log ev w).

Definition print (f : stream) (l : out_line) : M unit := emit (EvPrint f l).

(** [time.perf_counter_ns()]. *)
Definition perf_counter_ns : M Z :=
  fun w =>
    let t := timer w (clock_reads w) in
    (Ok t, log (EvClock t) (set_clock_reads (S (clock_reads w)) w)).

(** A call of the serialiser, recorded. *)
Definition do_encode (o : json) : M (list byte) :=
  emit (EvEncode o) ;;; ret (encode o).

(** ** The connection

    Every network operation first asks whether the link still stands: once
    a fault has hit it, or once it has been closed, all I/O on either side
    raises. *)
Definition net_check : M unit :=
  fun w =>
    match link w with
    | Some e => (Raise e, w)
    | None =>
        match faults w (netops w) with
        | Some e => (Raise e, set_link (Some e) (set_netops (S (netops w)) w))
        | None => (Ok tt, set_netops (S (netops w)) w)
        end
    end.

(** [await ws.send(m)] on side [s]: the frame joins the inbox of the
    other side. *)
Definition ws_send (s : side) (m : frame) : M unit :=
  net_check ;;;
  fun w => (Ok tt, log (EvSend s m) (set_inbox (peer s) (inbox (peer s) w ++ [m]) w)).

(** [await ws.recv()] on side [s], once the event loop has let the other
    task run: the oldest unread frame, or suspension when there is none. *)
Definition ws_recv (s : side) : M frame :=
  net_check ;;;
  fun w =>
    match inbox s w with
    | m :: rest => (Ok m, log (EvRecv s m) (set_inbox s rest w))
    | [] => (Pending, w)
    end.

(** [async for msg in ws: body msg].  The iterator awaits [ws.recv()] and
    ends the loop on [ConnectionClosedOK]; any other exception of the
    reading goes out of the loop.  One turn of the loop consumes one frame
    of the inbox, so the number of frames waiting bounds the turns. *)
Fixpoint async_for (fuel : nat) (s : side) (body : frame -> M unit) : M unit :=
  fun w =>
    match ws_recv s w with
    | (Ok msg, w1) =>
        match fuel with
        | O => (Pending, w1)
        | S fuel' => (body msg ;;; async_for fuel' s body) w1
        end
    | (Raise ConnectionClosedOK, w1) => (Ok tt, w1)
    | (Raise e, w1) => (Raise e, w1)
    | (Pending, w1) => (Pending, w1)
    end.

(** Lines 48-57.  The handler keeps no state between two frames, and the
    [try] encloses the whole loop: resuming the suspended handler is the
    same as running it on what has arrived since. *)
Definition echo_handler : M unit :=
  try_except
    (fun w => async_for (length (inbox ServerSide w)) ServerSide
                        (fun msg => ws_send ServerSide msg) w)
    (fun _ => ret tt).

(** One turn of the event loop while the client is suspended: the handler
    task, if it is alive, runs until it suspends or ends.  When it ends the
    server closes the connection; an exception that escapes it is logged by
    the server and reaches nobody else. *)
Definition close_link (w : world) : world :=
  match link w with
  | None => set_link (Some ConnectionClosedOK) w
  | Some _ => w
  end.

Definition run_handler : M unit :=
  fun w =>
    if handler_alive w then
      match echo_handler w with
      | (Pending, w1) => (Ok tt, w1)
      | (Ok _, w1) => (Ok tt, close_link (set_handler_alive false w1))
      | (Raise e, w1) =>
          (Ok tt, close_link (set_handler_alive false
                                (set_server_log (server_log w1 ++ [e]) w1)))
      end
    else (Ok tt, w).

(** The client's [await ws.send(data)] and [await ws.recv()]. *)
Definition client_send (data : list byte) : M unit :=
  ws_send ClientSide (Binary data).

Definition client_recv : M frame :=
  run_handler ;;; ws_recv ClientSide.

(** [f"ws://{host}:{port}"]. *)
Definition ws_uri (host : string) (port : Z) : string :=
  ("ws://" ++ host ++ ":" ++ str_int port)%string.

(** [websockets.connect(uri)] as a context manager.  Entering opens a
    fresh connection to whoever listens at [uri], for which the server
    starts a handler task; leaving closes it, which ends the handler. *)
Definition connect (uri : string) : M unit :=
  fun w =>
    match listening w with
    | Some (h, p) =>
        if String.eqb uri (ws_uri h p) then
          (net_check ;;; emit (EvConnect uri))
            (set_handler_alive true
               (set_inbox ClientSide [] (set_inbox ServerSide [] (set_link None w))))
        else (Raise OSError, w)
    | None => (Raise OSError, w)
    end.

Definition client_close : M unit :=
  (fun w => (Ok tt, close_link w)) ;;;
  run_handler ;;;
  emit EvClientClose.

(** [websockets.serve(echo_handler, host, port)] as a context manager. *)
Definition serve (host : string) (port : Z) : M unit :=
  fun w =>
    if can_bind w host port
    then (Ok tt, log (EvServe host port) (set_listening (Some (host, port)) w))
    else (Raise OSError, w).

Definition serve_close : M unit :=
  run_handler ;;;
  fun w => (Ok tt, log EvServeClose (set_listening None w)).

(** ** Lines 40-45: [get_free_port] *)
Definition get_free_port : M Z :=
  fun w => (Ok (os_port w), log (EvProbePort (os_port w)) w).

(** ** Lines 60-94: [run_benchmark] *)

(** Lines 81-85: one turn of the timed loop. *)
Definition round_trip (o : json) : M unit :=
  data <- do_encode o ;;
  client_send data ;;;
  _ <- client_recv ;;
  ret tt.

Definition lift {A} (r : result A) : M A := fun w => (r, w).

Definition summary_line (iters payload bytes_per : Z) : string :=
  ("Python microbench: iters=" ++ str_int iters ++ " payload=" ++ str_int payload
   ++ " bytes/op=" ++ str_int bytes_per)%string.

(** Lines 76-86: the body of [async with websockets.connect(uri) as ws];
    the warm-up, then the timed loop between two readings of the timer. *)
Definition session (o : json) (iters : Z) : M (Z * Z) :=
  data <- do_encode o ;;
  client_send data ;;;
  _ <- client_recv ;;
  t0 <- perf_counter_ns ;;
  for_each (py_range iters) (fun _ => round_trip o) ;;;
  t1 <- perf_counter_ns ;;
  ret (t0, t1).

Definition run_benchmark (host : string) (port iters payload : Z) : M unit :=
  let uri := ws_uri host port in
  let o := msg_obj payload in
  times <- async_with (connect uri) client_close (fun _ => session o iters) ;;
  let total_ns := snd times - fst times in
  ns_per <- lift (ns_per_of total_ns iters) ;;
  ops_per_sec <- lift (ops_per_sec_of total_ns iters) ;;
  data <- do_encode o ;;
  let bytes_per := Z.of_nat (length data) in
  print Stdout (Line (summary_line iters payload bytes_per)) ;;;
  print Stdout (MetricsLine (float_div (float_of_int total_ns) float_1e9)
                            ns_per ops_per_sec).

(** ** Lines 97-123: [main] *)

(** The namespace [argparse] returns; [type=int] admits every integer. *)
Record args : Type := mkArgs {
  arg_iters : Z;
  arg_payload : Z;
  arg_host : string;
  arg_port : Z;
  arg_use_sdk : bool
}.

Definition default_args : args :=
  mkArgs 10000 1024 "127.0.0.1" 0 false.

(** [shlex.split(cmd)] for the one command the script runs, which has
    neither quotes nor escapes. *)
Definition pip_argv : list string :=
  [ "pip"; "install"; "--upgrade";
    "git+https://github.com/modelcontextprotocol/python-sdk.git" ]%string.

(** [subprocess.check_call(argv)]. *)
Definition check_call (argv : list string) : M unit :=
  emit (EvSubprocess argv) ;;;
  fun w =>
    match pip_result w with
    | None => (Ok tt, w)
    | Some e => (Raise e, w)
    end.

(** Lines 106-114. *)
Definition installing_line : out_line :=
  Line "Installing modelcontextprotocol/python-sdk from GitHub...".

Definition installed_line : out_line :=
  Line "Installed python-sdk (attempting to import)".

Definition falling_back_line : out_line :=
  Line "Falling back to raw websockets/json path".

Definition install_sdk : M unit :=
  print Stdout installing_line ;;;
  try_except
    (check_call pip_argv ;;;
     print Stdout installed_line)
    (fun e =>
       print Stderr (FailedInstall e) ;;;
       print Stdout falling_back_line).

(** Line 116: [args.port or get_free_port()]. *)
Definition resolve_port (a : args) : M Z :=
  if arg_port a =? 0 then get_free_port else ret (arg_port a).

Definition main (a : args) : M unit :=
  (if arg_use_sdk a then install_sdk else ret tt) ;;;
  port <- resolve_port a ;;
  async_with (serve (arg_host a) port) serve_close (fun _ =>
    run_benchmark (arg_host a) port (arg_iters a) (arg_payload a)).

(** ** Reading a trace *)

Definition is_server_io (ev : event) : bool :=
  match ev with
  | EvSend ServerSide _ | EvRecv ServerSide _ => true
  | _ => false
  end.

(** What the driver does: the trace without the I/O of the handler. *)
Definition client_view (tr : list event) : list event :=
  filter (fun ev => negb (is_server_io ev)) tr.

Definition is_clock (ev : event) : bool :=
  match ev with EvClock _ => true | _ => false end.

Definition is_print (ev : event) : bool :=
  match ev with EvPrint _ _ => true | _ => false end.

Definition is_client_send (ev : event) : bool :=
  match ev with EvSend ClientSide _ => true | _ => false end.

(** The events before the first reading of the timer, and those after it. *)
Fixpoint before_timer (tr : list event) : list event :=
  match tr with
  | [] => []
  | ev :: rest => if is_clock ev then [] else ev :: before_timer rest
  end.

Fixpoint after_timer (tr : list event) : list event :=
  match tr with
  | [] => []
  | ev :: rest => if is_clock ev then rest else after_timer rest
  end.

(** The measured interval: between the first two readings of the timer. *)
Definition timed_segment (tr : list event) : list event :=
  before_timer (after_timer tr).

(** What one round trip of the driver looks like, with reply [r]. *)
Definition round_trip_events (o : json) (r : frame) : list event :=
  [EvEncode o; EvSend ClientSide (Binary (encode o)); EvRecv ClientSide r].

(** What the handler does with one frame. *)
Definition echo_events (m : frame) : list event :=
  [EvRecv ServerSide m; EvSend ServerSide m].

(** A world in which the network never fails. *)
Definition healthy (w : world) : Prop := forall k, faults w k = None.

(** A world in which the network fails with errors only, that is with
    exceptions that derive from [Exception]. *)
Definition errors_only (w : world) : Prop :=
  (forall e, link w = Some e -> is_Exception e = true) /\
  (forall k e, faults w k = Some e -> is_Exception e = true).

(** The world after a fault has hit the link. *)
Definition struck (e : exn) (w : world) : world :=
  set_link (Some e) (set_netops (S (netops w)) w).

(** What a computation started in [w] returns, and what it adds to the
    trace. *)
Definition outcome {A} (m : M A) (w : world) : result A := fst (m w).

Definition events_of {A} (m : M A) (w : world) : list event :=
  skipn (length (trace w)) (trace (snd (m w))).

Definition clock_count (tr : list event) : nat := length (filter is_clock tr).

Definition is_port_event (ev : event) : bool :=
  match ev with
  | EvProbePort _ | EvServe _ _ | EvConnect _ => true
  | _ => false
  end.

Definition port_events (tr : list event) : list event := filter is_port_event tr.

(** [w'] continues [w] with events that all satisfy [P]. *)
Definition extends_with (P : event -> Prop) (w w' : world) : Prop :=
  exists tr, trace w' = trace w ++ tr /\ Forall P tr.

Definition with_use_sdk (b : bool) (a : args) : args :=
  mkArgs (arg_iters a) (arg_payload a) (arg_host a) (arg_port a) b.


(** ** Relations between the world before and the world after *)

(** Every run of [m] relates the world it starts in to the world it
    leaves by [R]. *)
Definition keeps (R : world -> world -> Prop) {A} (m : M A) : Prop :=
  forall w r w', m w = (r, w') -> R w w'.

(** The oracle of faults stays. *)
Definition same_faults (w w' : world) : Prop := faults w' = faults w.

(** A network that fails with errors only goes on failing with errors
    only. *)
Definition stays_errors_only (w w' : world) : Prop :=
  errors_only w -> errors_only w'.

(** A healthy network with the link open stays so under the I/O of
    either side. *)
Definition stays_up (w w' : world) : Prop :=
  healthy w /\ link w = None -> healthy w' /\ link w' = None.

(** What a full round trip leaves in the trace: the driver encodes and
    sends, the handler receives and sends back, the driver receives. *)
Definition exchange (o : json) : list event :=
  [EvEncode o; EvSend ClientSide (Binary (encode o))]
    ++ echo_events (Binary (encode o))
    ++ [EvRecv ClientSide (Binary (encode o))].

Definition no_clock (ev : event) : Prop := is_clock ev = false.

(** What lines 91-94 leave in the trace when both divisions succeed. *)
Definition report_events (o : json) (iters payload total_ns : Z) : list event :=
  [ EvEncode o;
    EvPrint Stdout
      (Line (summary_line iters payload (Z.of_nat (length (encode o)))));
    EvPrint Stdout
      (MetricsLine (float_div (float_of_int total_ns) float_1e9)
                   (int_truediv total_ns iters)
                   (float_div (float_mul float_1e9 (float_of_int iters))
                              (float_of_int total_ns))) ].

(** No fault ahead, the link open and the handler alive. *)
Definition ready (w : world) : Prop :=
  healthy w /\ link w = None /\ handler_alive w = true.

(** The world after a list of events has been recorded. *)
Definition logs (evs : list event) (w : world) : world :=
  fold_left (fun w' ev => log ev w') evs w.

(** What [install_sdk] leaves in the trace: when pip succeeds, when it
    fails with an error, and when it is interrupted. *)
Definition sdk_installed_events : list event :=
  [ EvPrint Stdout installing_line; EvSubprocess pip_argv;
    EvPrint Stdout installed_line ].

Definition sdk_failed_events (e : exn) : list event :=
  [ EvPrint Stdout installing_line; EvSubprocess pip_argv;
    EvPrint Stderr (FailedInstall e); EvPrint Stdout falling_back_line ].

Definition sdk_interrupted_events : list event :=
  [ EvPrint Stdout installing_line; EvSubprocess pip_argv ].

(** The port the run settles on (line 116). *)
Definition resolved_port (a : args) (w : world) : Z :=
  if arg_port a =? 0 then os_port w else arg_port a.

(** The events about ports of a run that meets no obstacle: the probe when
    the configured port is zero, then listening and connecting. *)
Definition expected_port_events (a : args) (w : world) : list event :=
  (if arg_port a =? 0 then [EvProbePort (os_port w)] else [])
    ++ [ EvServe (arg_host a) (resolved_port a w);
         EvConnect (ws_uri (arg_host a) (resolved_port a w)) ].

Definition no_port (ev : event) : Prop := is_port_event ev = false.

(** ** More ways of reading a trace *)

Definition is_connection_event (ev : event) : bool :=
  match ev with
  | EvConnect _ | EvClientClose => true
  | _ => false
  end.

Definition is_serve_event (ev : event) : bool :=
  match ev with
  | EvServe _ _ | EvServeClose => true
  | _ => false
  end.

Definition is_stderr (ev : event) : bool :=
  match ev with
  | EvPrint Stderr _ => true
  | _ => false
  end.

Definition is_subprocess (ev : event) : bool :=
  match ev with
  | EvSubprocess _ => true
  | _ => false
  end.

(** The events that can occur between connecting and closing: encodings,
    I/O on the connection and readings of the timer. *)
Definition is_session_event (ev : event) : bool :=
  match ev with
  | EvEncode _ | EvSend _ _ | EvRecv _ _ | EvClock _ => true
  | _ => false
  end.

(** An event of a session whose encodings are encodings of [o] and whose
    sends of the driver carry the encoding of [o] as a binary frame. *)
Definition session_event (o : json) (ev : event) : Prop :=
  is_session_event ev = true /\
  match ev with
  | EvEncode o' => o' = o
  | EvSend ClientSide m => m = Binary (encode o)
  | _ => True
  end.

(** An encoding of the template [o], or a send of the driver that carries
    it; any other event passes. *)
Definition from_template (o : json) (ev : event) : Prop :=
  match ev with
  | EvEncode o' => o' = o
  | EvSend ClientSide m => m = Binary (encode o)
  | _ => True
  end.

(** What [install_sdk] leaves in the trace in a given world. *)
Definition install_events (a : args) (w : world) : list event :=
  if arg_use_sdk a then
    match pip_result w with
    | None => sdk_installed_events
    | Some e =>
        if is_Exception e then sdk_failed_events e else sdk_interrupted_events
    end
  else [].

(** The probe of [get_free_port], when line 116 calls it. *)
Definition probe_events (a : args) (w : world) : list event :=
  if arg_port a =? 0 then [EvProbePort (os_port w)] else [].

(** The metrics of lines 89-90 as the outcome of the run depends on them. *)
Definition divides_by_zero (iters total_ns : Z) : bool :=
  (iters =? 0) || (total_ns =? 0).

(** The timer and the count of its readings stay. *)
Definition same_clock (w w' : world) : Prop :=
  timer w' = timer w /\ clock_reads w' = clock_reads w.

(** Nobody starts or stops listening. *)
Definition same_listening (w w' : world) : Prop := listening w' = listening w.

(** How lines 106-114 end: normally, also when pip fails with an error,
    or with the exception of pip when [except Exception] does not catch
    it. *)
Definition install_outcome (a : args) (w : world) : result unit :=
  if arg_use_sdk a then
    match pip_result w with
    | None => Ok tt
    | Some e => if is_Exception e then Ok tt else Raise e
    end
  else Ok tt.

(** The world in which [main] starts the server: after the installation
    and the resolution of the port. *)
Definition before_serve (a : args) (w : world) : world :=
  logs (probe_events a w) (logs (install_events a w) w).

(** The world in which [run_benchmark] starts, when the server could
    bind. *)
Definition serving (a : args) (w : world) : world :=
  log (EvServe (arg_host a) (resolved_port a w))
      (set_listening (Some (arg_host a, resolved_port a w)) (before_serve a w)).

(** Neither a subprocess nor a line on stderr. *)
Definition quiet (ev : event) : Prop :=
  is_subprocess ev = false /\ is_stderr ev = false.

(** [e] is one of the faults the network has in store. *)
Definition fault_of (w : world) (e : exn) : Prop := exists k, faults w k = Some e.

(** The oracle of faults stays, and a link that is closed was closed
    before or has been closed by one of its faults. *)
Definition closed_by_fault (w w' : world) : Prop :=
  faults w' = faults w /\
  forall e, link w' = Some e -> link w = Some e \/ fault_of w e.

End Bench.

Notation "x <- m ;; k" := (bind m (fun x => k))
  (at level 100, m at next level, right associativity).
Notation "m ;;; k" := (bind m (fun _ => k))
  (at level 100, right associativity).

(** ** Worlds to run the model in *)
Module Example.

(** The reference runtime without and with [orjson]. *)
Definition rt_json : Runtime := RefRuntime.runtime false.
Definition rt_orjson : Runtime := RefRuntime.runtime true.

Definition localhost : string := "127.0.0.1".

(** A process that has just started: nothing listening, no connection,
    an empty trace.  The timer advances by a quarter of a millisecond per
    reading, the operating system hands out port 49152, every address can
    be bound, pip succeeds and the network never fails. *)
Definition fresh : @world rt_json :=
  mkWorld (RT := rt_json)
    (fun k => 1000000 + 250000 * Z.of_nat k) 49152 (fun _ _ => true) None
    (fun _ => None)
    0 0 None None false [] [] [] [].

(** The same once the server listens on [127.0.0.1:8765]. *)
Definition listening_at_8765 : @world rt_json :=
  set_listening (Some (localhost, 8765)) fresh.

(** A world whose link breaks at its fourth network operation. *)
Definition breaking : @world rt_json :=
  mkWorld (RT := rt_json)
    (fun k => 1000000 + 250000 * Z.of_nat k) 49152 (fun _ _ => true) None
    (fun k => if Nat.eqb k 3 then Some ConnectionClosedError else None)
    0 0 None (Some (localhost, 8765)) false [] [] [] [].


(** A connection on which three frames wait for the handler: a text
    frame, an empty binary frame and a binary frame. *)
Definition three_frames : list frame :=
  [Text "ping"; Binary []; Binary [x00; xff]%byte].

Definition with_three_frames : @world rt_json :=
  set_handler_alive true (set_inbox ServerSide three_frames listening_at_8765).

(** The same with a link that breaks at the third network operation of
    the handler: after the first echo and the second read. *)
Definition with_three_frames_breaking : @world rt_json :=
  set_handler_alive true (set_inbox ServerSide three_frames
    (mkWorld (RT := rt_json)
       (fun k => 1000000 + 250000 * Z.of_nat k) 49152 (fun _ _ => true) None
       (fun k => if Nat.eqb k 2 then Some ConnectionClosedError else None)
       0 0 None (Some (localhost, 8765)) false [] [] [] [])).

(** A process on a machine where no address can be bound. *)
Definition port_taken : @world rt_json :=
  mkWorld (RT := rt_json)
    (fun k => 1000000 + 250000 * Z.of_nat k) 49152 (fun _ _ => false) None
    (fun _ => None)
    0 0 None None false [] [] [] [].

(** A process whose pip is interrupted from the keyboard. *)
Definition pip_interrupted : @world rt_json :=
  mkWorld (RT := rt_json)
    (fun k => 1000000 + 250000 * Z.of_nat k) 49152 (fun _ _ => true)
    (Some KeyboardInterrupt)
    (fun _ => None)
    0 0 None None false [] [] [] [].

(** A process whose pip fails with exit status 1. *)
Definition pip_failing : @world rt_json :=
  mkWorld (RT := rt_json)
    (fun k => 1000000 + 250000 * Z.of_nat k) 49152 (fun _ _ => true)
    (Some (CalledProcessError 1))
    (fun _ => None)
    0 0 None None false [] [] [] [].

(** A connection with three frames waiting, closed by an interrupt. *)
Definition with_three_frames_interrupted : @world rt_json :=
  set_link (Some KeyboardInterrupt) with_three_frames.

End Example.

Section Properties.

Context {RT : Runtime}.

(** * Properties *)

Unset Implicit Arguments.

Ltac inv H := inversion H; subst; clear H.

(** Lists of events, with the appends nested to the right. *)
Ltac norm_app := repeat rewrite <- app_assoc; cbn [app].

(** ** The message template *)




(** ** What a computation keeps

    Most facts about a run are facts that every step keeps: the trace only
    grows, and grows by events of a given kind; the oracles stay what they
    are.  [keeps] states such a fact once for a relation [R] between the
    world before and the world after, and the lemmas carry it through the
    combinators and the operations of the script. *)
Section Keeps.

Variable R : world -> world -> Prop.
Variable P : event -> Prop.
Hypothesis R_refl : forall w, R w w.
Hypothesis R_trans : forall a b c, R a b -> R b c -> R a c.
Hypothesis R_log : forall ev w, P ev -> R w (log ev w).
Hypothesis R_netops : forall n w, R w (set_netops n w).
Hypothesis R_struck : forall e w, faults w (netops w) = Some e -> R w (struck e w).
Hypothesis R_close_link : forall w, R w (close_link w).
Hypothesis R_open : forall w, R w (set_link None w).
Hypothesis R_inbox : forall s q w, R w (set_inbox s q w).
Hypothesis R_alive : forall b w, R w (set_handler_alive b w).
Hypothesis R_server_log : forall l w, R w (set_server_log l w).
Hypothesis R_listening : forall l w, R w (set_listening l w).
Hypothesis R_clock : forall n w, R w (set_clock_reads n w).

Lemma keeps_ret {A} (a : A) : keeps R (ret a).
Proof. intros w r w' H; inv H; auto. Qed.

Lemma keeps_raise {A} (e : exn) : keeps R (raise (A := A) e).
Proof. intros w r w' H; inv H; auto. Qed.

Lemma keeps_lift {A} (x : result A) : keeps R (lift x).
Proof. intros w r w' H; inv H; auto. Qed.

Lemma keeps_bind {A B} (m : M A) (k : A -> M B) :
  keeps R m -> (forall a, keeps R (k a)) -> keeps R (bind m k).
Proof.
  intros Hm Hk w r w' H. unfold bind in H.
  destruct (m w) as [[a|e|] w1] eqn:E; specialize (Hm _ _ _ E).
  - eapply R_trans; [exact Hm | eapply Hk; exact H].
  - inv H; auto.
  - inv H; auto.
Qed.

Lemma keeps_try_except {A} (body : M A) (handler : exn -> M A) :
  keeps R body -> (forall e, keeps R (handler e)) -> keeps R (try_except body handler).
Proof.
  intros Hb Hh w r w' H. unfold try_except in H.
  destruct (body w) as [[a|e|] w1] eqn:E; specialize (Hb _ _ _ E).
  - inv H; auto.
  - destruct (is_Exception e).
    + eapply R_trans; [exact Hb | eapply Hh; exact H].
    + inv H; auto.
  - inv H; auto.
Qed.

Lemma keeps_async_with {A B} (enter : M A) (leave : M unit) (body : A -> M B) :
  keeps R enter -> keeps R leave -> (forall x, keeps R (body x)) ->
  keeps R (async_with enter leave body).
Proof.
  intros He Hl Hb. unfold async_with. apply keeps_bind; [exact He|].
  intros x w r w' H.
  destruct (body x w) as [[b|e|] w1] eqn:E; specialize (Hb _ _ _ _ E).
  - eapply R_trans; [exact Hb|].
    revert H. apply keeps_bind; [exact Hl | intros; apply keeps_ret].
  - eapply R_trans; [exact Hb|].
    revert H. apply keeps_bind; [exact Hl | intros; apply keeps_raise].
  - inv H; auto.
Qed.

Lemma keeps_for_each {A} (l : list A) (body : A -> M unit) :
  (forall x, keeps R (body x)) -> keeps R (for_each l body).
Proof.
  intros Hb. induction l as [|x l IH]; simpl.
  - apply keeps_ret.
  - apply keeps_bind; auto.
Qed.

Lemma keeps_emit (ev : event) : P ev -> keeps R (emit ev).
Proof. intros HP w r w' H; inv H; auto. Qed.

Lemma keeps_net_check : keeps R net_check.
Proof.
  intros w r w' H. unfold net_check in H.
  destruct (link w); [inv H; auto|].
  destruct (faults w (netops w)) eqn:F; inv H; auto.
  now apply R_struck.
Qed.

Lemma keeps_ws_send (s : side) (m : frame) :
  P (EvSend s m) -> keeps R (ws_send s m).
Proof.
  intros HP. unfold ws_send. apply keeps_bind; [apply keeps_net_check|].
  intros _ w r w' H; inv H. eauto.
Qed.

Lemma keeps_ws_recv (s : side) :
  (forall m, P (EvRecv s m)) -> keeps R (ws_recv s).
Proof.
  intros HP. unfold ws_recv. apply keeps_bind; [apply keeps_net_check|].
  intros _ w r w' H. destruct (inbox s w); inv H; eauto.
Qed.

Lemma keeps_async_for (fuel : nat) (s : side) (body : frame -> M unit) :
  (forall m, P (EvRecv s m)) -> (forall m, keeps R (body m)) ->
  keeps R (async_for fuel s body).
Proof.
  intros HP Hb. induction fuel as [|fuel IH]; intros w r w' H; simpl in H.
  - destruct (ws_recv s w) as [[m|e|] w1] eqn:E;
      pose proof (keeps_ws_recv _ HP _ _ _ E) as H1.
    + inv H; auto.
    + destruct e; inv H; auto.
    + inv H; auto.
  - destruct (ws_recv s w) as [[m|e|] w1] eqn:E;
      pose proof (keeps_ws_recv _ HP _ _ _ E) as H1.
    + eapply R_trans; [exact H1|]. revert H.
      apply keeps_bind; [apply Hb | intros; exact IH].
    + destruct e; inv H; auto.
    + inv H; auto.
Qed.

(** *** The handler task *)

Hypothesis P_server_io : forall ev, is_server_io ev = true -> P ev.

Lemma keeps_echo_handler : keeps R echo_handler.
Proof.
  unfold echo_handler. apply keeps_try_except.
  - intros w r w' H. revert H. apply keeps_async_for.
    + intros m; apply P_server_io; reflexivity.
    + intros m; apply keeps_ws_send, P_server_io; reflexivity.
  - intros; apply keeps_ret.
Qed.

Lemma keeps_run_handler : keeps R run_handler.
Proof.
  intros w r w' H. unfold run_handler in H.
  destruct (handler_alive w); [|inv H; auto].
  destruct (echo_handler w) as [[u|e|] w1] eqn:E;
    pose proof (keeps_echo_handler _ _ _ E) as H1; inv H.
  - eapply R_trans; [exact H1|]. eapply R_trans; [apply R_alive | apply R_close_link].
  - eapply R_trans; [exact H1|].
    eapply R_trans; [apply R_server_log|].
    eapply R_trans; [apply R_alive | apply R_close_link].
  - exact H1.
Qed.

(** *** The driver *)

Hypothesis P_client_recv : forall m, P (EvRecv ClientSide m).
Hypothesis P_client_send : forall d, P (EvSend ClientSide (Binary d)).
Hypothesis P_encode : forall o, P (EvEncode o).

Lemma keeps_client_send (d : list byte) : keeps R (client_send d).
Proof. apply keeps_ws_send, P_client_send. Qed.

Lemma keeps_client_recv : keeps R client_recv.
Proof.
  unfold client_recv. apply keeps_bind; [apply keeps_run_handler|].
  intros _. apply keeps_ws_recv, P_client_recv.
Qed.

Lemma keeps_do_encode (o : json) : keeps R (do_encode o).
Proof.
  unfold do_encode. apply keeps_bind; [apply keeps_emit, P_encode|].
  intros; apply keeps_ret.
Qed.

Lemma keeps_perf_counter_ns : (forall t, P (EvClock t)) -> keeps R perf_counter_ns.
Proof.
  intros HP w r w' H. inv H. eapply R_trans; [apply R_clock | apply R_log, HP].
Qed.

Lemma keeps_connect (uri : string) : P (EvConnect uri) -> keeps R (connect uri).
Proof.
  intros HP w r w' H. unfold connect in H.
  destruct (listening w) as [[h p]|]; [|inv H; auto].
  destruct (String.eqb uri (ws_uri h p)); [|inv H; auto].
  assert (K : keeps R (net_check ;;; emit (EvConnect uri)))
    by (apply keeps_bind; [apply keeps_net_check | intros; apply keeps_emit, HP]).
  eapply R_trans; [|eapply K; exact H].
  eapply R_trans; [apply R_open|].
  eapply R_trans; [apply R_inbox|].
  eapply R_trans; [apply R_inbox|]. apply R_alive.
Qed.

Lemma keeps_client_close : P EvClientClose -> keeps R client_close.
Proof.
  intros HP. unfold client_close. apply keeps_bind.
  - intros w r w' H; inv H. apply R_close_link.
  - intros _. apply keeps_bind; [apply keeps_run_handler|].
    intros _. apply keeps_emit, HP.
Qed.

Lemma keeps_serve (host : string) (port : Z) :
  P (EvServe host port) -> keeps R (serve host port).
Proof.
  intros HP w r w' H. unfold serve in H.
  destruct (can_bind w host port); inv H; auto.
  eapply R_trans; [apply R_listening | apply R_log, HP].
Qed.

Lemma keeps_serve_close : P EvServeClose -> keeps R serve_close.
Proof.
  intros HP. unfold serve_close. apply keeps_bind; [apply keeps_run_handler|].
  intros _ w r w' H; inv H.
  eapply R_trans; [apply R_listening | apply R_log, HP].
Qed.

Lemma keeps_round_trip (o : json) : keeps R (round_trip o).
Proof.
  unfold round_trip.
  apply keeps_bind; [apply keeps_do_encode|]. intros d.
  apply keeps_bind; [apply keeps_client_send|]. intros _.
  apply keeps_bind; [apply keeps_client_recv|]. intros _. apply keeps_ret.
Qed.

Lemma keeps_timed_loop (o : json) (iters : Z) :
  keeps R (for_each (py_range iters) (fun _ => round_trip o)).
Proof. apply keeps_for_each; intros; apply keeps_round_trip. Qed.

Lemma keeps_session (o : json) (iters : Z) :
  (forall t, P (EvClock t)) -> keeps R (session o iters).
Proof.
  intros P_clock. unfold session.
  apply keeps_bind; [apply keeps_do_encode|]. intros d.
  apply keeps_bind; [apply keeps_client_send|]. intros _.
  apply keeps_bind; [apply keeps_client_recv|]. intros _.
  apply keeps_bind; [apply keeps_perf_counter_ns, P_clock|]. intros t0.
  apply keeps_bind; [apply keeps_timed_loop|]. intros _.
  apply keeps_bind; [apply keeps_perf_counter_ns, P_clock|]. intros t1.
  apply keeps_ret.
Qed.

Lemma keeps_report (iters payload total_ns : Z) (o : json) :
  (forall l, P (EvPrint Stdout l)) ->
  keeps R (ns_per <- lift (ns_per_of total_ns iters) ;;
         ops_per_sec <- lift (ops_per_sec_of total_ns iters) ;;
         data <- do_encode o ;;
         print Stdout (Line (summary_line iters payload (Z.of_nat (length data)))) ;;;
         print Stdout (MetricsLine (float_div (float_of_int total_ns) float_1e9)
                                   ns_per ops_per_sec)).
Proof.
  intros H3.
  apply keeps_bind; [apply keeps_lift|]. intros ns_per.
  apply keeps_bind; [apply keeps_lift|]. intros ops.
  apply keeps_bind; [apply keeps_do_encode|]. intros d.
  apply keeps_bind; [apply keeps_emit, H3|]. intros _.
  apply keeps_emit, H3.
Qed.

Lemma keeps_run_benchmark (host : string) (port iters payload : Z) :
  (forall t, P (EvClock t)) ->
  P (EvConnect (ws_uri host port)) -> P EvClientClose ->
  (forall l, P (EvPrint Stdout l)) ->
  keeps R (run_benchmark host port iters payload).
Proof.
  intros H0 H1 H2 H3. unfold run_benchmark.
  apply keeps_bind.
  - apply keeps_async_with;
      [apply keeps_connect, H1 | apply keeps_client_close, H2
      | intros; apply keeps_session, H0].
  - intros times. apply keeps_report, H3.
Qed.

Lemma keeps_install_sdk :
  (forall f l, P (EvPrint f l)) -> (forall argv, P (EvSubprocess argv)) ->
  keeps R install_sdk.
Proof.
  intros H1 H2. unfold install_sdk.
  apply keeps_bind; [apply keeps_emit, H1|]. intros _.
  apply keeps_try_except.
  - apply keeps_bind.
    + unfold check_call. apply keeps_bind; [apply keeps_emit, H2|].
      intros _ w r w' H. destruct (pip_result w); inv H; auto.
    + intros _. apply keeps_emit, H1.
  - intros e. apply keeps_bind; [apply keeps_emit, H1|].
    intros _. apply keeps_emit, H1.
Qed.

(** *** The same with the value of a step known *)

Lemma keeps_bind_value {A B} (m : M A) (k : A -> M B) (a0 : A) :
  (forall w a w1, m w = (Ok a, w1) -> a = a0) ->
  keeps R m -> keeps R (k a0) -> keeps R (bind m k).
Proof.
  intros Hv Hm Hk w r w' H. unfold bind in H.
  destruct (m w) as [[a|e|] w1] eqn:E; pose proof (Hm _ _ _ E) as H1.
  - rewrite (Hv _ _ _ E) in H. eapply R_trans; [exact H1 | eapply Hk; exact H].
  - inv H; auto.
  - inv H; auto.
Qed.

Lemma do_encode_value (o : json) (w : world) (a : list byte) (w1 : world) :
  do_encode o w = (Ok a, w1) -> a = encode o.
Proof. intros E. now inv E. Qed.

Lemma keeps_do_encode_of (o : json) : P (EvEncode o) -> keeps R (do_encode o).
Proof.
  intros H. unfold do_encode. apply keeps_bind; [apply keeps_emit, H|].
  intros; apply keeps_ret.
Qed.

Lemma keeps_round_trip_of (o : json) :
  P (EvEncode o) -> P (EvSend ClientSide (Binary (encode o))) ->
  keeps R (round_trip o).
Proof.
  intros H1 H2. unfold round_trip.
  apply keeps_bind_value with (a0 := encode o);
    [apply do_encode_value | apply keeps_do_encode_of, H1 |].
  apply keeps_bind; [apply keeps_ws_send, H2|]. intros _.
  apply keeps_bind; [apply keeps_client_recv|]. intros _. apply keeps_ret.
Qed.

Lemma keeps_session_of (o : json) (iters : Z) :
  P (EvEncode o) -> P (EvSend ClientSide (Binary (encode o))) ->
  (forall t, P (EvClock t)) ->
  keeps R (session o iters).
Proof.
  intros H1 H2 H3. unfold session.
  apply keeps_bind_value with (a0 := encode o);
    [apply do_encode_value | apply keeps_do_encode_of, H1 |].
  apply keeps_bind; [apply keeps_ws_send, H2|]. intros _.
  apply keeps_bind; [apply keeps_client_recv|]. intros _.
  apply keeps_bind; [apply keeps_perf_counter_ns, H3|]. intros t0.
  apply keeps_bind;
    [apply keeps_for_each; intros; apply keeps_round_trip_of; auto|].
  intros _.
  apply keeps_bind; [apply keeps_perf_counter_ns, H3|]. intros t1.
  apply keeps_ret.
Qed.

Lemma keeps_get_free_port : (forall p, P (EvProbePort p)) -> keeps R get_free_port.
Proof. intros H w r w' E. inv E. apply R_log, H. Qed.

Lemma keeps_resolve_port (a : args) :
  (forall p, P (EvProbePort p)) -> keeps R (resolve_port a).
Proof.
  intros H. unfold resolve_port. destruct (arg_port a =? 0).
  - apply keeps_get_free_port, H.
  - apply keeps_ret.
Qed.

End Keeps.

(** ** Three instances of [keeps] *)

(** The trace grows, by events that satisfy [P]. *)
Lemma ext_refl (P : event -> Prop) (w : world) : extends_with P w w.
Proof. exists []. now rewrite app_nil_r. Qed.

Lemma ext_trans (P : event -> Prop) (a b c : world) :
  extends_with P a b -> extends_with P b c -> extends_with P a c.
Proof.
  intros [t1 [E1 F1]] [t2 [E2 F2]]. exists (t1 ++ t2). split.
  - now rewrite E2, E1, app_assoc.
  - apply Forall_app; auto.
Qed.

Lemma ext_log (P : event -> Prop) (ev : event) (w : world) :
  P ev -> extends_with P w (log ev w).
Proof. intros H. exists [ev]. split; [reflexivity | auto]. Qed.

Lemma ext_same (P : event -> Prop) (w w' : world) :
  trace w' = trace w -> extends_with P w w'.
Proof. intros H. exists []. now rewrite app_nil_r. Qed.

Lemma ext_close_link (P : event -> Prop) (w : world) :
  extends_with P w (close_link w).
Proof. apply ext_same. unfold close_link. now destruct (link w). Qed.

Lemma ext_inbox (P : event -> Prop) (s : side) (q : list frame) (w : world) :
  extends_with P w (set_inbox s q w).
Proof. apply ext_same. now destruct s. Qed.

Lemma ext_weaken (P Q : event -> Prop) (w w' : world) :
  (forall ev, P ev -> Q ev) -> extends_with P w w' -> extends_with Q w w'.
Proof.
  intros H [tr [E F]]. exists tr. split; [exact E|].
  eapply Forall_impl; eauto.
Qed.

Lemma events_of_ext {A} (m : M A) (w : world) (tr : list event) :
  trace (snd (m w)) = trace w ++ tr -> events_of m w = tr.
Proof.
  intros H. unfold events_of. rewrite H, skipn_app, skipn_all.
  now rewrite Nat.sub_diag.
Qed.

Create HintDb ext.
#[local] Hint Resolve ext_refl ext_trans ext_log ext_close_link ext_inbox : ext.
#[local] Hint Extern 1 (extends_with _ _ _) => (apply ext_same; reflexivity) : ext.

Lemma same_faults_close_link (w : world) : same_faults w (close_link w).
Proof. unfold same_faults, close_link. now destruct (link w). Qed.

Lemma same_faults_inbox (s : side) (q : list frame) (w : world) :
  same_faults w (set_inbox s q w).
Proof. now destruct s. Qed.

Lemma same_faults_trans (a b c : world) :
  same_faults a b -> same_faults b c -> same_faults a c.
Proof. unfold same_faults. congruence. Qed.

Create HintDb oracle.
#[local] Hint Resolve same_faults_close_link same_faults_inbox same_faults_trans : oracle.
#[local] Hint Extern 1 (same_faults _ _) => reflexivity : oracle.

Lemma errors_only_struck (e : exn) (w : world) :
  faults w (netops w) = Some e -> stays_errors_only w (struck e w).
Proof.
  intros F [H1 H2]. split.
  - intros e' E; simpl in E; inv E. eapply H2; eauto.
  - exact H2.
Qed.

Lemma errors_only_close_link (w : world) : stays_errors_only w (close_link w).
Proof.
  intros H. unfold close_link. destruct (link w) eqn:E; [exact H|].
  destruct H as [H1 H2]. split; [|exact H2].
  intros e' E'; simpl in E'; now inv E'.
Qed.

Lemma errors_only_open (w : world) : stays_errors_only w (set_link None w).
Proof. intros [H1 H2]. split; [|exact H2]. intros e E; simpl in E; discriminate. Qed.

Lemma errors_only_inbox (s : side) (q : list frame) (w : world) :
  stays_errors_only w (set_inbox s q w).
Proof. intros [H1 H2]. destruct s; split; auto. Qed.

Lemma errors_only_trans (a b c : world) :
  stays_errors_only a b -> stays_errors_only b c -> stays_errors_only a c.
Proof. unfold stays_errors_only. auto. Qed.

Create HintDb errs.
#[local] Hint Resolve errors_only_struck errors_only_close_link errors_only_open
  errors_only_inbox errors_only_trans : errs.
#[local] Hint Extern 1 (stays_errors_only _ _) => (intros [? ?]; split; assumption) : errs.

(** ** The connection, case by case *)

Lemma ws_recv_closed (s : side) (w : world) (e : exn) :
  link w = Some e -> ws_recv s w = (Raise e, w).
Proof. intros E. unfold ws_recv, bind, net_check. now rewrite E. Qed.

Lemma ws_send_closed (s : side) (m : frame) (w : world) (e : exn) :
  link w = Some e -> ws_send s m w = (Raise e, w).
Proof. intros E. unfold ws_send, bind, net_check. now rewrite E. Qed.

Lemma ws_recv_fault (s : side) (w : world) (e : exn) :
  link w = None -> faults w (netops w) = Some e ->
  ws_recv s w = (Raise e, struck e w).
Proof. intros E F. unfold ws_recv, bind, net_check. now rewrite E, F. Qed.

Lemma ws_send_fault (s : side) (m : frame) (w : world) (e : exn) :
  link w = None -> faults w (netops w) = Some e ->
  ws_send s m w = (Raise e, struck e w).
Proof. intros E F. unfold ws_send, bind, net_check. now rewrite E, F. Qed.

Lemma ws_recv_empty (s : side) (w : world) :
  link w = None -> faults w (netops w) = None -> inbox s w = [] ->
  ws_recv s w = (Pending, set_netops (S (netops w)) w).
Proof.
  intros E F I. unfold ws_recv, bind, net_check. rewrite E, F.
  destruct s; simpl in *; now rewrite I.
Qed.

Lemma ws_recv_frame (s : side) (w : world) (m : frame) (rest : list frame) :
  link w = None -> faults w (netops w) = None -> inbox s w = m :: rest ->
  ws_recv s w =
    (Ok m, log (EvRecv s m) (set_inbox s rest (set_netops (S (netops w)) w))).
Proof.
  intros E F I. unfold ws_recv, bind, net_check. rewrite E, F.
  destruct s; simpl in *; now rewrite I.
Qed.

Lemma ws_send_open (s : side) (m : frame) (w : world) :
  link w = None -> faults w (netops w) = None ->
  ws_send s m w =
    (Ok tt, log (EvSend s m)
              (set_inbox (peer s) (inbox (peer s) w ++ [m])
                 (set_netops (S (netops w)) w))).
Proof.
  intros E F. unfold ws_send, bind, net_check. rewrite E, F.
  destruct s; reflexivity.
Qed.

(** A successful operation finds the link open and leaves it open. *)
Lemma ws_send_ok_inv (s : side) (m : frame) (w w' : world) :
  ws_send s m w = (Ok tt, w') ->
  link w = None /\ faults w (netops w) = None.
Proof.
  intros H. destruct (link w) as [e|] eqn:E.
  - rewrite (ws_send_closed _ _ _ _ E) in H. discriminate.
  - destruct (faults w (netops w)) as [e|] eqn:F; auto.
    rewrite (ws_send_fault _ _ _ _ E F) in H. discriminate.
Qed.

Lemma ws_recv_ok_inv (s : side) (m : frame) (w w' : world) :
  ws_recv s w = (Ok m, w') ->
  link w = None /\ faults w (netops w) = None /\
  exists rest, inbox s w = m :: rest.
Proof.
  intros H. destruct (link w) as [e|] eqn:E.
  - rewrite (ws_recv_closed _ _ _ E) in H. discriminate.
  - destruct (faults w (netops w)) as [e|] eqn:F.
    + rewrite (ws_recv_fault _ _ _ E F) in H. discriminate.
    + destruct (inbox s w) as [|m' rest] eqn:I.
      * rewrite (ws_recv_empty _ _ E F I) in H. discriminate.
      * rewrite (ws_recv_frame _ _ _ _ E F I) in H. inv H. eauto.
Qed.

(** ** The echo handler *)

(** The loop of the handler on the frames that have arrived.  Whatever
    the network does, what has been sent back is a prefix of what was
    received; the loop suspends only with every frame echoed, and ends
    only with the link closed. *)
Lemma echo_loop_spec (fuel : nat) : forall w r w1,
  (length (inbox_server w) <= fuel)%nat ->
  async_for fuel ServerSide (fun msg => ws_send ServerSide msg) w = (r, w1) ->
  handler_alive w1 = handler_alive w /\
  server_log w1 = server_log w /\
  (exists k, inbox_client w1 = inbox_client w ++ firstn k (inbox_server w)) /\
  match r with
  | Pending =>
      link w1 = None /\ inbox_server w1 = [] /\
      inbox_client w1 = inbox_client w ++ inbox_server w /\
      trace w1 = trace w ++ flat_map echo_events (inbox_server w)
  | Ok _ => link w1 = Some ConnectionClosedOK
  | Raise e => link w1 = Some e
  end.
Proof.
  assert (Stop : forall (w : world) (r : result unit) (w1 : world) e,
    (match e with
     | ConnectionClosedOK => (Ok tt, w)
     | _ => (Raise e, w)
     end) = (r, w1) ->
    w1 = w /\ match r with
              | Pending => False
              | Ok _ => e = ConnectionClosedOK
              | Raise e' => e' = e
              end).
  { intros w r w1 e H. destruct e; inv H; auto. }
  assert (Halt : forall (w : world) (r : result unit) (w1 : world) e (w0 : world),
    handler_alive w = handler_alive w0 -> server_log w = server_log w0 ->
    inbox_client w = inbox_client w0 -> link w = Some e ->
    (match e with
     | ConnectionClosedOK => (Ok tt, w)
     | _ => (Raise e, w)
     end) = (r, w1) ->
    handler_alive w1 = handler_alive w0 /\
    server_log w1 = server_log w0 /\
    (exists k, inbox_client w1 = inbox_client w0 ++ firstn k (inbox_server w0)) /\
    match r with
    | Pending =>
        link w1 = None /\ inbox_server w1 = [] /\
        inbox_client w1 = inbox_client w0 ++ inbox_server w0 /\
        trace w1 = trace w0 ++ flat_map echo_events (inbox_server w0)
    | Ok _ => link w1 = Some ConnectionClosedOK
    | Raise e => link w1 = Some e
    end).
  { intros w r w1 e w0 A L I E H. apply Stop in H. destruct H as [-> H].
    repeat split; auto.
    - exists 0%nat. simpl. now rewrite app_nil_r.
    - destruct r; [subst; auto | subst; auto | contradiction]. }
  induction fuel as [|fuel IH]; intros w r w1 Hlen H;
    cbn [async_for] in H.
  - destruct (link w) as [e|] eqn:E.
    { rewrite (ws_recv_closed _ _ _ E) in H. eapply Halt; eauto. }
    destruct (faults w (netops w)) as [e|] eqn:F.
    { rewrite (ws_recv_fault _ _ _ E F) in H.
      eapply Halt; [| | | |exact H]; reflexivity. }
    destruct (inbox_server w) as [|m rest] eqn:I; [|simpl in Hlen; lia].
    rewrite (ws_recv_empty ServerSide _ E F I) in H. inv H.
    repeat split; simpl; rewrite ?app_nil_r; auto.
    exists 0%nat. simpl. now rewrite app_nil_r.
  - destruct (link w) as [e|] eqn:E.
    { rewrite (ws_recv_closed _ _ _ E) in H. eapply Halt; eauto. }
    destruct (faults w (netops w)) as [e|] eqn:F.
    { rewrite (ws_recv_fault _ _ _ E F) in H.
      eapply Halt; [| | | |exact H]; reflexivity. }
    destruct (inbox_server w) as [|m rest] eqn:I.
    { rewrite (ws_recv_empty ServerSide _ E F I) in H. inv H.
      repeat split; simpl; rewrite ?app_nil_r; auto.
      exists 0%nat. simpl. now rewrite app_nil_r. }
    rewrite (ws_recv_frame ServerSide _ _ _ E F I) in H.
    unfold bind in H.
    set (wa := log (EvRecv ServerSide m)
                 (set_inbox ServerSide rest (set_netops (S (netops w)) w))) in *.
    destruct (faults wa (netops wa)) as [e|] eqn:F2.
    { rewrite (ws_send_fault ServerSide m wa e) in H by auto.
      inv H. repeat split; auto.
      exists 0%nat. simpl. now rewrite app_nil_r. }
    rewrite (ws_send_open ServerSide m wa) in H by auto.
    apply IH in H; [|simpl in *; lia].
    destruct H as (A & L & [k Hk] & Hr). simpl in A, L, Hk, Hr.
    repeat split; auto.
    + exists (S k). rewrite Hk. simpl. now rewrite <- app_assoc.
    + destruct r as [u|e|]; auto.
      destruct Hr as (L1 & I1 & I2 & T). repeat split; auto.
      * rewrite I2. now rewrite <- app_assoc.
      * rewrite T. simpl. now rewrite <- !app_assoc.
Qed.

Lemma echo_handler_ext (w : world) (r : result unit) (w1 : world) :
  echo_handler w = (r, w1) ->
  extends_with (fun ev => is_server_io ev = true) w w1.
Proof.
  apply (@keeps_echo_handler (extends_with _) (fun ev => is_server_io ev = true));
    eauto with ext.
Qed.

Lemma echo_handler_spec (w : world) (r : result unit) (w1 : world) :
  echo_handler w = (r, w1) ->
  handler_alive w1 = handler_alive w /\
  server_log w1 = server_log w /\
  (exists k, inbox_client w1 = inbox_client w ++ firstn k (inbox_server w)) /\
  match r with
  | Pending =>
      link w1 = None /\ inbox_server w1 = [] /\
      inbox_client w1 = inbox_client w ++ inbox_server w /\
      trace w1 = trace w ++ flat_map echo_events (inbox_server w)
  | Ok _ => exists e, link w1 = Some e /\ is_Exception e = true
  | Raise e => link w1 = Some e /\ is_Exception e = false
  end.
Proof.
  unfold echo_handler, try_except. intros H.
  destruct (async_for _ _ _ w) as [[u|e|] w2] eqn:E;
    (apply echo_loop_spec in E; [|apply Nat.le_refl]);
    destruct E as (A & L & K & Hr).
  - inv H. repeat split; auto. eauto.
  - destruct (is_Exception e) eqn:X; inv H; repeat split; eauto.
  - inv H. tauto.
Qed.

Lemma stays_up_refl (w : world) : stays_up w w.
Proof. intros H; exact H. Qed.

Lemma stays_up_trans (a b c : world) :
  stays_up a b -> stays_up b c -> stays_up a c.
Proof. unfold stays_up; auto. Qed.

Lemma stays_up_struck (e : exn) (w : world) :
  faults w (netops w) = Some e -> stays_up w (struck e w).
Proof. intros F [H _]. rewrite H in F. discriminate. Qed.

Lemma stays_up_inbox (s : side) (q : list frame) (w : world) :
  stays_up w (set_inbox s q w).
Proof. intros H. destruct s; exact H. Qed.

Create HintDb up.
#[local] Hint Resolve stays_up_refl stays_up_trans stays_up_struck stays_up_inbox : up.
#[local] Hint Extern 1 (stays_up _ _) => (intros ?; assumption) : up.

Lemma echo_loop_stays_up (fuel : nat) (w : world) (r : result unit) (w1 : world) :
  async_for fuel ServerSide (fun msg => ws_send ServerSide msg) w = (r, w1) ->
  stays_up w w1.
Proof.
  apply (@keeps_async_for stays_up (fun _ => True)); eauto with up.
  intros m. apply (@keeps_ws_send stays_up (fun _ => True)); eauto with up.
Qed.

(** In a healthy world the handler echoes everything and waits for more. *)
Lemma echo_handler_healthy (w : world) :
  healthy w -> link w = None ->
  exists w1, echo_handler w = (Pending, w1) /\ healthy w1.
Proof.
  intros Hh Hl. destruct (echo_handler w) as [r w1] eqn:E.
  assert (U : healthy w1 /\ link w1 = None).
  { revert E. unfold echo_handler, try_except.
    destruct (async_for _ _ _ w) as [[u|e|] w2] eqn:E2;
      pose proof (echo_loop_stays_up _ _ _ _ E2 (conj Hh Hl)) as [U1 U2];
      (apply echo_loop_spec in E2; [|apply Nat.le_refl]);
      destruct E2 as (_ & _ & _ & Hr); try congruence.
    intros E; inv E; auto. }
  destruct U as [U1 U2]. apply echo_handler_spec in E.
  destruct E as (_ & _ & _ & Hr). destruct r as [u|e|].
  - destruct Hr as [e [Hr _]]; congruence.
  - destruct Hr as [Hr _]; congruence.
  - eauto.
Qed.

(** One turn of the event loop: the handler task, seen from the driver. *)
Lemma run_handler_spec (w : world) (r : result unit) (w1 : world) :
  run_handler w = (r, w1) ->
  r = Ok tt /\
  (handler_alive w = false -> w1 = w) /\
  (handler_alive w = true -> link w1 = None ->
     handler_alive w1 = true /\
     inbox_server w1 = [] /\
     inbox_client w1 = inbox_client w ++ inbox_server w /\
     trace w1 = trace w ++ flat_map echo_events (inbox_server w)).
Proof.
  unfold run_handler. intros H. destruct (handler_alive w) eqn:A.
  - destruct (echo_handler w) as [[u|e|] w2] eqn:E;
      apply echo_handler_spec in E; destruct E as (A2 & L2 & K & Hr); inv H.
    + split; [reflexivity|]. split; [discriminate|]. intros _ Hl.
      destruct Hr as [e [Hr _]]. unfold close_link in Hl. simpl in Hl.
      rewrite Hr in Hl. simpl in Hl. congruence.
    + split; [reflexivity|]. split; [discriminate|]. intros _ Hl.
      destruct Hr as [Hr _]. unfold close_link in Hl. simpl in Hl.
      rewrite Hr in Hl. simpl in Hl. congruence.
    + split; [reflexivity|]. split; [discriminate|]. intros _ _.
      destruct Hr as (L1 & I1 & I2 & T). rewrite A2, A. auto.
  - inv H. split; [reflexivity|]. split; [reflexivity|]. discriminate.
Qed.

Lemma run_handler_ext (w : world) (r : result unit) (w1 : world) :
  run_handler w = (r, w1) ->
  extends_with (fun ev => is_server_io ev = true) w w1.
Proof.
  apply (@keeps_run_handler (extends_with _) (fun ev => is_server_io ev = true));
    eauto with ext.
Qed.

(** With the link closed the handler task does nothing that shows. *)
Lemma run_handler_closed (w : world) (e : exn) (r : result unit) (w1 : world) :
  link w = Some e -> run_handler w = (r, w1) -> r = Ok tt /\ trace w1 = trace w.
Proof.
  intros Hl H. unfold run_handler in H.
  destruct (handler_alive w); [|inv H; auto].
  assert (E : exists r2, echo_handler w = (r2, w) /\ r2 <> Pending).
  { unfold echo_handler, try_except. destruct (inbox ServerSide w); simpl;
      rewrite (ws_recv_closed _ _ _ Hl);
      destruct e; simpl; eexists; split; try reflexivity; discriminate. }
  destruct E as [r2 [E N]]. rewrite E in H.
  destruct r2 as [u|e2|]; [| |congruence]; inv H; split; auto;
    unfold close_link; simpl; rewrite Hl; reflexivity.
Qed.

(** ** The driver, step by step *)

Lemma client_view_exchange (o : json) :
  client_view (exchange o) = round_trip_events o (Binary (encode o)).
Proof. reflexivity. Qed.

Lemma do_encode_spec (o : json) (w : world) :
  do_encode o w = (Ok (encode o), log (EvEncode o) w).
Proof. reflexivity. Qed.

Lemma client_send_ok (d : list byte) (w w' : world) :
  client_send d w = (Ok tt, w') ->
  link w' = None /\
  inbox_server w' = inbox_server w ++ [Binary d] /\
  inbox_client w' = inbox_client w /\
  trace w' = trace w ++ [EvSend ClientSide (Binary d)].
Proof.
  unfold client_send. intros H.
  destruct (ws_send_ok_inv _ _ _ _ H) as [E F].
  rewrite (ws_send_open _ _ _ E F) in H. inv H. simpl. auto.
Qed.

Lemma client_send_fail (d : list byte) (w : world) (r : result unit) (w' : world) :
  client_send d w = (r, w') -> r <> Ok tt -> trace w' = trace w.
Proof.
  unfold client_send. intros H N.
  destruct (link w) as [e|] eqn:E.
  - rewrite (ws_send_closed _ _ _ _ E) in H. now inv H.
  - destruct (faults w (netops w)) as [e|] eqn:F.
    + rewrite (ws_send_fault _ _ _ _ E F) in H. now inv H.
    + rewrite (ws_send_open _ _ _ E F) in H. inv H. congruence.
Qed.

Lemma ws_recv_fail (s : side) (w : world) (r : result frame) (w' : world) :
  ws_recv s w = (r, w') -> (forall m, r <> Ok m) -> trace w' = trace w.
Proof.
  intros H N.
  destruct (link w) as [e|] eqn:E.
  - rewrite (ws_recv_closed _ _ _ E) in H. now inv H.
  - destruct (faults w (netops w)) as [e|] eqn:F.
    + rewrite (ws_recv_fault _ _ _ E F) in H. now inv H.
    + destruct (inbox s w) as [|m rest] eqn:I.
      * rewrite (ws_recv_empty _ _ E F I) in H. now inv H.
      * rewrite (ws_recv_frame _ _ _ _ E F I) in H. inv H. now elim (N m).
Qed.

(** A reply reaches a driver whose inbox was empty only through the
    handler, and it is the oldest frame the handler had to echo. *)
Lemma client_recv_ok (m : frame) (w w' : world) :
  inbox_client w = [] ->
  client_recv w = (Ok m, w') ->
  exists rest,
    inbox_server w = m :: rest /\
    inbox_client w' = rest /\
    inbox_server w' = [] /\
    trace w' = trace w ++ flat_map echo_events (m :: rest) ++ [EvRecv ClientSide m].
Proof.
  intros I H. unfold client_recv, bind in H.
  destruct (run_handler w) as [[u|e|] w1] eqn:E;
    destruct (run_handler_spec _ _ _ E) as (Hr & Hdead & Halive); try discriminate.
  destruct (ws_recv_ok_inv _ _ _ _ H) as (L1 & F1 & rest & I1).
  rewrite (ws_recv_frame _ _ _ _ L1 F1 I1) in H. inv H.
  destruct (handler_alive w) eqn:A.
  - destruct (Halive eq_refl L1) as (A1 & S1 & C1 & T1).
    simpl in I1. rewrite C1, I in I1. simpl in I1.
    exists rest. simpl. rewrite T1, I1, S1. repeat split; auto.
    now rewrite <- app_assoc.
  - rewrite (Hdead eq_refl) in I1. simpl in I1. congruence.
Qed.

Lemma client_recv_fail (w : world) (r : result frame) (w' : world) :
  client_recv w = (r, w') -> (forall m, r <> Ok m) ->
  extends_with (fun ev => is_server_io ev = true) w w'.
Proof.
  intros H N. unfold client_recv, bind in H.
  destruct (run_handler w) as [[u|e|] w1] eqn:E;
    pose proof (run_handler_ext _ _ _ E) as X;
    destruct (run_handler_spec _ _ _ E) as (Hr & _); try discriminate.
  eapply ext_trans; [exact X|]. apply ext_same. eapply ws_recv_fail; eauto.
Qed.

(** One round trip that succeeds, from empty inboxes to empty inboxes. *)
Lemma round_trip_ok (o : json) (w w' : world) :
  inbox_client w = [] -> inbox_server w = [] ->
  round_trip o w = (Ok tt, w') ->
  inbox_client w' = [] /\ inbox_server w' = [] /\
  trace w' = trace w ++ exchange o.
Proof.
  intros IC IS H. unfold round_trip, bind in H.
  rewrite do_encode_spec in H.
  destruct (client_send _ _) as [[u|e|] w1] eqn:E1; try discriminate.
  destruct u. apply client_send_ok in E1. destruct E1 as (L1 & S1 & C1 & T1).
  simpl in S1, C1, T1. rewrite IS in S1. rewrite IC in C1. simpl in S1.
  destruct (client_recv w1) as [[m|e|] w2] eqn:E2; try discriminate.
  inv H. apply client_recv_ok in E2; [|exact C1].
  destruct E2 as (rest & S2 & C2 & S3 & T2).
  rewrite S1 in S2. injection S2 as <- <-. repeat split; auto.
  rewrite T2, T1. unfold exchange. simpl. now rewrite <- !app_assoc.
Qed.

Lemma clock_count_no_clock (tr : list event) :
  Forall no_clock tr -> clock_count tr = 0%nat.
Proof.
  unfold clock_count. induction 1 as [|ev tr H _ IH]; simpl; [reflexivity|].
  unfold no_clock in H. now rewrite H.
Qed.

Lemma clock_count_app (a b : list event) :
  clock_count (a ++ b) = (clock_count a + clock_count b)%nat.
Proof. unfold clock_count. now rewrite filter_app, length_app. Qed.

Lemma round_trip_no_clock (o : json) (w : world) (r : result unit) (w' : world) :
  round_trip o w = (r, w') -> extends_with no_clock w w'.
Proof.
  apply (@keeps_round_trip (extends_with _) no_clock); eauto with ext;
    try (intros; reflexivity).
  intros ev H. destruct ev; try discriminate; reflexivity.
Qed.

(** The timed loop (lines 81-85).  However it ends it reads no timer;
    when it completes, it has made one full round trip per turn. *)
Lemma timed_loop_spec (o : json) (l : list Z) : forall w r w',
  inbox_client w = [] -> inbox_server w = [] ->
  for_each l (fun _ => round_trip o) w = (r, w') ->
  exists tr,
    trace w' = trace w ++ tr /\ clock_count tr = 0%nat /\
    (r = Ok tt ->
       inbox_client w' = [] /\ inbox_server w' = [] /\
       tr = flat_map (fun _ => exchange o) l).
Proof.
  induction l as [|x l IH]; intros w r w' IC IS H; simpl in H.
  - inv H. exists []. rewrite app_nil_r. auto.
  - unfold bind in H.
    destruct (round_trip o w) as [[u|e|] w1] eqn:E.
    + destruct u. destruct (round_trip_ok _ _ _ IC IS E) as (C1 & S1 & T1).
      destruct (IH _ _ _ C1 S1 H) as (tr & T2 & K2 & Hok).
      exists (exchange o ++ tr). rewrite T2, T1, <- app_assoc.
      split; [reflexivity|]. split.
      * rewrite clock_count_app, K2. reflexivity.
      * intros Hr. destruct (Hok Hr) as (C3 & S3 & ->). simpl. auto.
    + inv H. destruct (round_trip_no_clock _ _ _ _ E) as (tr & T & F).
      exists tr. split; [exact T|]. split; [now apply clock_count_no_clock|].
      discriminate.
    + inv H. destruct (round_trip_no_clock _ _ _ _ E) as (tr & T & F).
      exists tr. split; [exact T|]. split; [now apply clock_count_no_clock|].
      discriminate.
Qed.

Lemma clock_count_server_io (tr : list event) :
  Forall (fun ev => is_server_io ev = true) tr -> clock_count tr = 0%nat.
Proof.
  intros H. apply clock_count_no_clock. eapply Forall_impl; [|exact H].
  intros ev E. destruct ev; try discriminate; reflexivity.
Qed.

Lemma clock_count_exchange (o : json) : clock_count (exchange o) = 0%nat.
Proof. reflexivity. Qed.

Lemma connect_spec (uri : string) (w : world) (r : result unit) (w' : world) :
  connect uri w = (r, w') ->
  (r = Ok tt /\ inbox_client w' = [] /\ inbox_server w' = [] /\
   trace w' = trace w ++ [EvConnect uri]) \/
  ((exists e, r = Raise e) /\ trace w' = trace w).
Proof.
  unfold connect. intros H.
  destruct (listening w) as [[h p]|]; [|inv H; right; eauto].
  destruct (String.eqb uri (ws_uri h p)); [|inv H; right; eauto].
  unfold bind, net_check in H. simpl in H.
  destruct (faults w (netops w)) as [e|]; inv H.
  - right. eauto.
  - left. auto.
Qed.

Lemma close_link_closed (w : world) :
  exists e, link (close_link w) = Some e.
Proof. unfold close_link. destruct (link w) eqn:E; simpl; eauto. Qed.

Lemma trace_close_link (w : world) : trace (close_link w) = trace w.
Proof. unfold close_link. now destruct (link w). Qed.

(** Leaving [async with websockets.connect(uri)] always succeeds, and
    shows as one event. *)
Lemma client_close_spec (w : world) (r : result unit) (w' : world) :
  client_close w = (r, w') -> r = Ok tt /\ trace w' = trace w ++ [EvClientClose].
Proof.
  unfold client_close, bind. intros H.
  destruct (close_link_closed w) as [e L].
  destruct (run_handler (close_link w)) as [r1 w1] eqn:E.
  destruct (run_handler_closed _ _ _ _ L E) as [-> T].
  inv H. split; [reflexivity|]. simpl. now rewrite T, trace_close_link.
Qed.

(** Lines 76-86.  Either the session runs to its end, and its trace is
    the warm-up, the first reading of the timer, one exchange per turn of
    the loop and the second reading; or it stops in the warm-up, before
    any reading; or it stops in the loop, after the first reading. *)
Lemma session_spec (o : json) (iters : Z) (w : world)
      (r : result (Z * Z)) (w' : world) :
  inbox_client w = [] -> inbox_server w = [] ->
  session o iters w = (r, w') ->
  exists tr,
    trace w' = trace w ++ tr /\
    match r with
    | Ok (t0, t1) =>
        tr = exchange o ++ [EvClock t0]
               ++ flat_map (fun _ => exchange o) (py_range iters) ++ [EvClock t1]
    | _ =>
        clock_count tr = 0%nat \/
        exists t0 rest,
          tr = exchange o ++ [EvClock t0] ++ rest /\ clock_count rest = 0%nat
    end.
Proof.
  intros IC IS H. unfold session, bind in H.
  rewrite do_encode_spec in H.
  destruct (client_send _ _) as [[u|e|] w1] eqn:E1.
  2,3: inv H; apply client_send_fail in E1; [|discriminate];
    exists [EvEncode o]; split; [now rewrite E1 | left; reflexivity].
  destruct u. apply client_send_ok in E1. destruct E1 as (L1 & S1 & C1 & T1).
  simpl in S1, C1, T1. rewrite IS in S1. rewrite IC in C1. simpl in S1.
  destruct (client_recv w1) as [[m|e|] w2] eqn:E2.
  2,3: inv H; apply client_recv_fail in E2; [|discriminate];
    destruct E2 as (srv & T2 & F2);
    exists ([EvEncode o; EvSend ClientSide (Binary (encode o))] ++ srv);
    (split; [rewrite T2, T1, <- !app_assoc; reflexivity|]);
    left; rewrite clock_count_app, (clock_count_server_io _ F2); reflexivity.
  apply client_recv_ok in E2; [|exact C1].
  destruct E2 as (rest & S2 & C2 & S3 & T2).
  rewrite S1 in S2. injection S2 as <- <-.
  assert (TX : trace w2 = trace w ++ exchange o).
  { rewrite T2, T1. unfold exchange. simpl. now rewrite <- !app_assoc. }
  clear T1 T2.
  unfold perf_counter_ns at 1 in H.
  set (t0 := timer w2 (clock_reads w2)) in *.
  set (w3 := log (EvClock t0) (set_clock_reads (S (clock_reads w2)) w2)) in *.
  destruct (for_each _ _ w3) as [[u|e|] w4] eqn:E3;
    (apply timed_loop_spec in E3; [|exact C2|exact S3]);
    destruct E3 as (tr & T3 & K3 & Hok).
  2,3: inv H; exists (exchange o ++ [EvClock t0] ++ tr);
    (split; [rewrite T3; simpl; rewrite TX, <- !app_assoc; reflexivity|]);
    right; eauto.
  destruct u. destruct (Hok eq_refl) as (C4 & S4 & ->).
  inversion H; subst; clear H.
  eexists. split; [|reflexivity].
  simpl. rewrite T3. simpl. rewrite TX, <- !app_assoc. reflexivity.
Qed.

(** ** [run_benchmark] as a whole *)

(** Lines 88-94, once the session has run to its end. *)
Lemma run_benchmark_after_session (host : string) (port iters payload : Z)
      (w w1 w2 : world) (t0 t1 : Z) (r : result unit) (w' : world) :
  let o := msg_obj payload in
  let uri := ws_uri host port in
  connect uri w = (Ok tt, w1) ->
  session o iters w1 = (Ok (t0, t1), w2) ->
  run_benchmark host port iters payload w = (r, w') ->
  exists post,
    trace w' = trace w2 ++ [EvClientClose] ++ post /\
    match r with
    | Ok _ =>
        iters <> 0 /\ t1 - t0 <> 0 /\
        post = report_events o iters payload (t1 - t0)
    | Raise e =>
        e = ZeroDivisionError /\ (iters = 0 \/ t1 - t0 = 0) /\ post = []
    | Pending => False
    end.
Proof.
  intros o uri E1 E2 H. unfold run_benchmark, async_with, bind in H.
  fold o uri in H. rewrite E1, E2 in H.
  destruct (client_close w2) as [rc w3] eqn:E3.
  destruct (client_close_spec _ _ _ E3) as [-> T3].
  simpl in H. unfold lift, ns_per_of, ops_per_sec_of in H.
  destruct (iters =? 0) eqn:Z1.
  { inv H. exists []. split; [now rewrite T3|].
    apply Z.eqb_eq in Z1. auto. }
  destruct (t1 - t0 =? 0) eqn:Z2.
  { inv H. exists []. split; [now rewrite T3|].
    apply Z.eqb_eq in Z2. auto. }
  inv H. exists (report_events o iters payload (t1 - t0)). split.
  - cbn [trace log]. rewrite T3. now norm_app.
  - apply Z.eqb_neq in Z1, Z2. auto.
Qed.

(**  A run of the driver ends in one of three ways: before the timer was
    read at all; in the timed loop, after one reading; or past the second
    reading, and then it either prints its report or divides by zero. *)
Lemma run_benchmark_spec (host : string) (port iters payload : Z)
      (w : world) (r : result unit) (w' : world) :
  run_benchmark host port iters payload w = (r, w') ->
  let o := msg_obj payload in
  let uri := ws_uri host port in
  exists tr,
    trace w' = trace w ++ tr /\
    ( (clock_count tr = 0%nat /\ r <> Ok tt)
      \/ (exists t0 rest,
            tr = [EvConnect uri] ++ exchange o ++ [EvClock t0] ++ rest /\
            clock_count rest = 0%nat /\ r <> Ok tt)
      \/ (exists t0 t1 post,
            tr = [EvConnect uri] ++ exchange o ++ [EvClock t0]
                   ++ flat_map (fun _ => exchange o) (py_range iters)
                   ++ [EvClock t1; EvClientClose] ++ post /\
            match r with
            | Ok _ =>
                iters <> 0 /\ t1 - t0 <> 0 /\
                post = report_events o iters payload (t1 - t0)
            | Raise e =>
                e = ZeroDivisionError /\ (iters = 0 \/ t1 - t0 = 0) /\ post = []
            | Pending => False
            end) ).
Proof.
  intros H o uri. pose proof H as H0.
  unfold run_benchmark, async_with, bind in H.
  fold o uri in H.
  destruct (connect uri w) as [[u|e|] w1] eqn:E1;
    destruct (connect_spec _ _ _ _ E1) as [(R1 & C1 & S1 & T1)|([e1 R1] & T1)];
    try discriminate.
  2: { inv H. exists []. rewrite app_nil_r. split; [auto|].
       left. split; [reflexivity | discriminate]. }
  destruct (session o iters w1) as [[[t0 t1]|e|] w2] eqn:E2;
    destruct (session_spec _ _ _ _ _ C1 S1 E2) as (trs & T2 & Hs).
  - (* the session ran to its end *)
    destruct u.
    destruct (run_benchmark_after_session _ _ _ _ _ _ _ _ _ _ _ E1 E2 H0)
      as (post & T3 & Hr).
    exists ([EvConnect uri] ++ exchange o ++ [EvClock t0]
              ++ flat_map (fun _ => exchange o) (py_range iters)
              ++ [EvClock t1; EvClientClose] ++ post).
    split; [rewrite T3, T2, T1, Hs; now norm_app|].
    right; right. exists t0, t1, post. auto.
  - (* the session raised *)
    destruct (client_close w2) as [rc w3] eqn:E3.
    destruct (client_close_spec _ _ _ E3) as [-> T3].
    simpl in H. inv H. destruct Hs as [K|(t0 & rest & -> & K)].
    + exists ([EvConnect uri] ++ trs ++ [EvClientClose]).
      split; [rewrite T3, T2, T1; now norm_app|].
      left. split; [|discriminate].
      rewrite !clock_count_app, K. reflexivity.
    + eexists. split; [rewrite T3, T2, T1; now norm_app|].
      right; left. exists t0, (rest ++ [EvClientClose]).
      split; [reflexivity|]. split; [|discriminate].
      rewrite clock_count_app, K. reflexivity.
  - (* the session waits for ever *)
    inv H. destruct Hs as [K|(t0 & rest & -> & K)].
    + exists ([EvConnect uri] ++ trs).
      split; [rewrite T2, T1; now norm_app|].
      left. split; [|discriminate].
      rewrite !clock_count_app, K. reflexivity.
    + eexists. split; [rewrite T2, T1; now norm_app|].
      right; left. exists t0, rest. split; [reflexivity|].
      split; [exact K | discriminate].
Qed.

(** ** Progress on a healthy network

    In a world that is [ready] every step of the driver succeeds. *)
Lemma connect_healthy (host : string) (port : Z) (w : world) :
  healthy w -> listening w = Some (host, port) ->
  exists w1, connect (ws_uri host port) w = (Ok tt, w1) /\ ready w1.
Proof.
  intros Hh Hl. unfold connect. rewrite Hl, String.eqb_refl.
  unfold bind, net_check. simpl. rewrite (Hh (netops w)). simpl.
  eexists. split; [reflexivity|]. repeat split; auto.
Qed.

Lemma client_send_healthy (d : list byte) (w : world) :
  ready w -> exists w1, client_send d w = (Ok tt, w1) /\ ready w1.
Proof.
  intros (Hh & Hl & Ha). unfold client_send.
  rewrite (ws_send_open _ _ _ Hl (Hh _)).
  eexists. split; [reflexivity|]. repeat split; auto.
Qed.

Lemma client_recv_healthy (w : world) :
  ready w -> inbox_client w ++ inbox_server w <> [] ->
  exists m w1, client_recv w = (Ok m, w1) /\ ready w1.
Proof.
  intros (Hh & Hl & Ha) Hne. unfold client_recv, bind, run_handler.
  rewrite Ha. destruct (echo_handler_healthy w Hh Hl) as (w1 & E & Hh1).
  rewrite E. apply echo_handler_spec in E.
  destruct E as (A1 & _ & _ & L1 & S1 & C1 & _).
  destruct (inbox_client w1) as [|m rest] eqn:I; [congruence|].
  rewrite (ws_recv_frame ClientSide w1 m rest L1 (Hh1 _) I).
  eexists _, _. split; [reflexivity|]. repeat split; auto.
  simpl. congruence.
Qed.

Lemma round_trip_healthy (o : json) (w : world) :
  ready w -> exists w1, round_trip o w = (Ok tt, w1) /\ ready w1.
Proof.
  intros Hr. unfold round_trip, bind. rewrite do_encode_spec.
  assert (Hr0 : ready (log (EvEncode o) w)) by exact Hr.
  destruct (client_send_healthy (encode o) _ Hr0) as (w1 & E1 & Hr1).
  rewrite E1. apply client_send_ok in E1. destruct E1 as (_ & S1 & _).
  destruct (client_recv_healthy w1 Hr1) as (m & w2 & E2 & Hr2).
  { rewrite S1. intros X. apply app_eq_nil in X. destruct X as [_ X].
    apply app_eq_nil in X. destruct X as [_ X]. discriminate. }
  rewrite E2. unfold ret. eauto.
Qed.

Lemma timed_loop_healthy (o : json) (l : list Z) : forall w,
  ready w ->
  exists w1, for_each l (fun _ => round_trip o) w = (Ok tt, w1) /\ ready w1.
Proof.
  induction l as [|x l IH]; intros w Hr; simpl.
  - eexists. split; [reflexivity | exact Hr].
  - unfold bind. destruct (round_trip_healthy o w Hr) as (w1 & E1 & Hr1).
    rewrite E1. apply IH, Hr1.
Qed.

Lemma session_healthy (o : json) (iters : Z) (w : world) :
  ready w ->
  exists t0 t1 w1, session o iters w = (Ok (t0, t1), w1).
Proof.
  intros Hr. unfold session, bind. rewrite do_encode_spec.
  assert (Hr0 : ready (log (EvEncode o) w)) by exact Hr.
  destruct (client_send_healthy (encode o) _ Hr0) as (w1 & E1 & Hr1).
  rewrite E1. apply client_send_ok in E1. destruct E1 as (_ & S1 & _).
  destruct (client_recv_healthy w1 Hr1) as (m & w2 & E2 & Hr2).
  { rewrite S1. intros X. apply app_eq_nil in X. destruct X as [_ X].
    apply app_eq_nil in X. destruct X as [_ X]. discriminate. }
  rewrite E2. unfold perf_counter_ns at 1.
  match goal with |- context [for_each _ _ ?w3] =>
    assert (Hr3 : ready w3) by exact Hr2;
    destruct (timed_loop_healthy o (py_range iters) w3 Hr3) as (w4 & E4 & Hr4)
  end.
  rewrite E4. unfold perf_counter_ns, ret. eauto.
Qed.

(** ** Reading the trace of a run *)

Lemma run_events {A} (m : M A) (w : world) (r : result A) (w' : world)
      (tr : list event) :
  m w = (r, w') -> trace w' = trace w ++ tr ->
  outcome m w = r /\ events_of m w = tr.
Proof.
  intros H T. unfold outcome. split; [now rewrite H|].
  apply events_of_ext. now rewrite H.
Qed.

Lemma client_view_app (a b : list event) :
  client_view (a ++ b) = client_view a ++ client_view b.
Proof. apply filter_app. Qed.

Lemma client_view_loop (o : json) (l : list Z) :
  client_view (flat_map (fun _ => exchange o) l) =
  flat_map (fun _ => round_trip_events o (Binary (encode o))) l.
Proof.
  induction l as [|x l IH]; [reflexivity|].
  cbn [flat_map]. now rewrite client_view_app, IH.
Qed.

Lemma before_timer_stops (pre : list event) (t : Z) (rest : list event) :
  Forall no_clock pre -> before_timer (pre ++ EvClock t :: rest) = pre.
Proof.
  induction 1 as [|ev pre H _ IH]; [reflexivity|].
  simpl. unfold no_clock in H. now rewrite H, IH.
Qed.

Lemma loop_no_clock (o : json) (r : frame) (l : list Z) :
  Forall no_clock (flat_map (fun _ => round_trip_events o r) l).
Proof.
  induction l as [|x l IH]; simpl; [constructor|].
  repeat (constructor; [reflexivity|]). exact IH.
Qed.

Lemma loop_sends (o : json) (r : frame) (l : list Z) :
  length (filter is_client_send (flat_map (fun _ => round_trip_events o r) l))
  = length l.
Proof. induction l as [|x l IH]; simpl; [reflexivity | now rewrite IH]. Qed.

Lemma length_py_range (n : Z) : length (py_range n) = Z.to_nat n.
Proof. unfold py_range. now rewrite length_map, length_seq. Qed.

Lemma clock_count_loop (o : json) (l : list Z) :
  clock_count (flat_map (fun _ => exchange o) l) = 0%nat.
Proof.
  induction l as [|x l IH]; [reflexivity|].
  cbn [flat_map]. now rewrite clock_count_app, IH.
Qed.

Lemma no_print_loop (o : json) (l : list Z) :
  filter is_print (flat_map (fun _ => exchange o) l) = [].
Proof.
  induction l as [|x l IH]; [reflexivity|].
  cbn [flat_map]. now rewrite filter_app, IH.
Qed.

(** On a healthy network, with the server listening where the driver
    connects, the run gets past the second reading of the timer. *)
Lemma run_benchmark_healthy (host : string) (port iters payload : Z)
      (w : world) (r : result unit) (w' : world) :
  healthy w -> listening w = Some (host, port) ->
  run_benchmark host port iters payload w = (r, w') ->
  let o := msg_obj payload in
  exists t0 t1 post,
    trace w' = trace w ++ [EvConnect (ws_uri host port)] ++ exchange o ++ [EvClock t0]
                 ++ flat_map (fun _ => exchange o) (py_range iters)
                 ++ [EvClock t1; EvClientClose] ++ post /\
    match r with
    | Ok _ =>
        iters <> 0 /\ t1 - t0 <> 0 /\
        post = report_events o iters payload (t1 - t0)
    | Raise e =>
        e = ZeroDivisionError /\ (iters = 0 \/ t1 - t0 = 0) /\ post = []
    | Pending => False
    end.
Proof.
  intros Hh Hl H o.
  destruct (connect_healthy host port w Hh Hl) as (w1 & E1 & Hr1).
  destruct (connect_spec _ _ _ _ E1) as [(_ & C1 & S1 & T1)|([e X] & _)];
    [|discriminate].
  destruct (session_healthy o iters w1 Hr1) as (t0 & t1 & w2 & E2).
  destruct (session_spec _ _ _ _ _ C1 S1 E2) as (trs & T2 & ->).
  destruct (run_benchmark_after_session _ _ _ _ _ _ _ _ _ _ _ E1 E2 H)
    as (post & T3 & Hr).
  exists t0, t1, post. split; [|exact Hr].
  rewrite T3, T2, T1. now norm_app.
Qed.

(** ** The claims about the driver *)

(** C5.  Whenever a run of [run_benchmark] gets as far as reading the
    timer, what the driver did before the first reading is exactly:
    connect, encode the message, send it, receive one reply.  The one
    warm-up round trip comes after the connection and before the measured
    interval. *)
Theorem warm_up_precedes_timer (host : string) (port iters payload : Z)
        (w : world) :
  let o := msg_obj payload in
  let tr := events_of (run_benchmark host port iters payload) w in
  clock_count tr <> 0%nat ->
  before_timer (client_view tr) =
    [ EvConnect (ws_uri host port);
      EvEncode o;
      EvSend ClientSide (Binary (encode o));
      EvRecv ClientSide (Binary (encode o)) ].
Proof.
  intros o tr. subst tr.
  destruct (run_benchmark host port iters payload w) as [r w'] eqn:H.
  destruct (run_benchmark_spec _ _ _ _ _ _ _ H) as (tr & T & Hc).
  destruct (run_events _ _ _ _ _ H T) as [_ ->]. fold o in Hc.
  destruct Hc as [[K _]|[(t0 & rest & -> & _)|(t0 & t1 & post & -> & _)]];
    intros Hn.
  - contradiction.
  - reflexivity.
  - reflexivity.
Qed.

(** C3.  With [iters >= 1], a run that reads the timer twice has made,
    between the two readings, exactly [iters] round trips, each one an
    encoding of the template, one send and one receive, in this order;
    so it has sent exactly [iters] messages there.  On a healthy network
    with the server listening, every run reads the timer twice. *)
Theorem timed_loop_round_trips (host : string) (port iters payload : Z)
        (w : world) :
  let o := msg_obj payload in
  let tr := events_of (run_benchmark host port iters payload) w in
  1 <= iters ->
  (clock_count tr = 2%nat ->
     timed_segment (client_view tr) =
       flat_map (fun _ => round_trip_events o (Binary (encode o))) (py_range iters)
     /\ Z.of_nat (length (filter is_client_send (timed_segment (client_view tr))))
        = iters)
  /\ (healthy w -> listening w = Some (host, port) -> clock_count tr = 2%nat).
Proof.
  intros o tr Hi. subst tr.
  destruct (run_benchmark host port iters payload w) as [r w'] eqn:H.
  split.
  - destruct (run_benchmark_spec _ _ _ _ _ _ _ H) as (tr & T & Hc).
    destruct (run_events _ _ _ _ _ H T) as [_ ->]. fold o in Hc.
    destruct Hc as [[K _]|[(t0 & rest & -> & K & _)|(t0 & t1 & post & -> & _)]];
      intros Hn.
    + congruence.
    + rewrite !clock_count_app, K in Hn. discriminate.
    + assert (S : timed_segment
                (client_view
                   ([EvConnect (ws_uri host port)] ++ exchange o ++ [EvClock t0]
                      ++ flat_map (fun _ => exchange o) (py_range iters)
                      ++ [EvClock t1; EvClientClose] ++ post))
              = flat_map (fun _ => round_trip_events o (Binary (encode o)))
                         (py_range iters)).
      { unfold timed_segment. rewrite !client_view_app, client_view_loop.
        cbn. apply before_timer_stops, loop_no_clock. }
      rewrite S. split; [reflexivity|].
      rewrite loop_sends, length_py_range. lia.
  - intros Hh Hl.
    destruct (run_benchmark_healthy _ _ _ _ _ _ _ Hh Hl H)
      as (t0 & t1 & post & T & Hr).
    destruct (run_events _ _ _ _ _ H T) as [_ ->]. fold o.
    assert (Kp : clock_count post = 0%nat).
    { fold o in Hr. destruct r as [u|e|]; [| |contradiction].
      - destruct Hr as (_ & _ & ->). reflexivity.
      - destruct Hr as (_ & _ & ->). reflexivity. }
    rewrite !clock_count_app, clock_count_loop, clock_count_exchange, Kp.
    reflexivity.
Qed.

(** C1.  With [iters = 0] no run of [run_benchmark] returns normally.  On
    a healthy network with the server listening, the run makes its
    warm-up, reads the timer twice with nothing in between, and then
    [total_ns / iters] raises [ZeroDivisionError]: nothing is printed. *)
Theorem zero_iters_divides_by_zero (host : string) (port payload : Z)
        (w : world) :
  let tr := events_of (run_benchmark host port 0 payload) w in
  (forall total_ns, ns_per_of total_ns 0 = Raise ZeroDivisionError) /\
  outcome (run_benchmark host port 0 payload) w <> Ok tt /\
  (healthy w -> listening w = Some (host, port) ->
     outcome (run_benchmark host port 0 payload) w = Raise ZeroDivisionError /\
     clock_count tr = 2%nat /\
     timed_segment (client_view tr) = [] /\
     filter is_print tr = []).
Proof.
  intros tr. subst tr.
  destruct (run_benchmark host port 0 payload w) as [r w'] eqn:H.
  split; [reflexivity|]. split.
  - destruct (run_benchmark_spec _ _ _ _ _ _ _ H) as (tr & T & Hc).
    destruct (run_events _ _ _ _ _ H T) as [-> _].
    destruct Hc as [[_ N]|[(t0 & rest & _ & _ & N)|(t0 & t1 & post & _ & Hr)]];
      auto.
    destruct r as [u|e|]; [|discriminate|contradiction].
    destruct Hr as (N & _). now elim N.
  - intros Hh Hl.
    destruct (run_benchmark_healthy _ _ _ _ _ _ _ Hh Hl H)
      as (t0 & t1 & post & T & Hr).
    destruct (run_events _ _ _ _ _ H T) as [-> ->].
    destruct r as [u|e|]; [|destruct Hr as (-> & _ & ->)|contradiction].
    + destruct Hr as (N & _). now elim N.
    + repeat split; reflexivity.
Qed.

(** ** The claims about the echo handler *)

Lemma echo_handler_stays_errors_only (w : world) (r : result unit) (w1 : world) :
  echo_handler w = (r, w1) -> stays_errors_only w w1.
Proof.
  apply (@keeps_echo_handler stays_errors_only (fun _ => True)); eauto with errs.
Qed.

(** C4.  Whatever frames have reached the handler, text or binary, empty
    or not, and whatever the network does, the frames it has sent back
    are a prefix of the frames it received: the same contents, in the
    order of arrival, one reply per message.  On a healthy network with
    the link open it has echoed every one of them, reading then replying,
    and waits for the next. *)
Theorem echo_fidelity (w : world) :
  let w1 := snd (echo_handler w) in
  (exists k, inbox_client w1 = inbox_client w ++ firstn k (inbox_server w)) /\
  (healthy w -> link w = None ->
     outcome echo_handler w = Pending /\
     inbox_client w1 = inbox_client w ++ inbox_server w /\
     inbox_server w1 = [] /\
     events_of echo_handler w = flat_map echo_events (inbox_server w)).
Proof.
  intros w1. subst w1. unfold outcome.
  destruct (echo_handler w) as [r w1] eqn:E. simpl.
  pose proof (echo_handler_spec _ _ _ E) as (_ & _ & K & Hr).
  split; [exact K|]. intros Hh Hl.
  destruct (echo_handler_healthy w Hh Hl) as (w2 & E2 & _).
  rewrite E in E2. inv E2. destruct Hr as (_ & S1 & C1 & T1).
  repeat split; auto.
  apply events_of_ext. now rewrite E.
Qed.

(** C9.  When the network fails with errors only (exceptions that derive
    from [Exception]), the handler never raises: it is waiting for the
    next frame with the link open, or it has returned with the link
    closed.  All it ever does is I/O on its own connection; nothing is
    printed, and the server has nothing to log. *)
Theorem handler_swallows_errors (w : world) :
  errors_only w ->
  (outcome echo_handler w = Ok tt \/ outcome echo_handler w = Pending) /\
  (link (snd (echo_handler w)) <> None -> outcome echo_handler w = Ok tt) /\
  Forall (fun ev => is_server_io ev = true) (events_of echo_handler w) /\
  outcome run_handler w = Ok tt /\
  server_log (snd (run_handler w)) = server_log w.
Proof.
  intros He. unfold outcome, run_handler.
  destruct (echo_handler w) as [r w1] eqn:E. simpl.
  pose proof (echo_handler_spec _ _ _ E) as (_ & L & _ & Hr).
  pose proof (echo_handler_stays_errors_only _ _ _ E He) as [He1 _].
  destruct (echo_handler_ext _ _ _ E) as (tr & T & F).
  assert (Ev : events_of echo_handler w = tr)
    by (apply events_of_ext; now rewrite E).
  rewrite Ev.
  destruct r as [[]|e|].
  - repeat split; auto.
    + destruct (handler_alive w); reflexivity.
    + destruct (handler_alive w); [|reflexivity].
      unfold close_link. simpl. destruct (link w1); exact L.
  - destruct Hr as [Hl Hx]. rewrite (He1 _ Hl) in Hx. discriminate.
  - destruct Hr as (Hl & _). repeat split; auto.
    + intros N. contradiction.
    + destruct (handler_alive w); reflexivity.
    + destruct (handler_alive w); [exact L | reflexivity].
Qed.

(** The bound of C9: an exception that does not derive from [Exception]
    goes through the handler. *)
Lemma handler_lets_cancellation_through (w : world) :
  link w = Some CancelledError ->
  outcome echo_handler w = Raise CancelledError.
Proof.
  intros Hl. unfold outcome, echo_handler, try_except.
  destruct (inbox ServerSide w); simpl; now rewrite (ws_recv_closed _ _ _ Hl).
Qed.

(** ** [main]: the optional installation and the port *)

Lemma bind_ok {A B} (m : M A) (k : A -> M B) (w : world) (a : A) (w1 : world) :
  m w = (Ok a, w1) -> bind m k w = k a w1.
Proof. intros H. unfold bind. now rewrite H. Qed.

Lemma install_sdk_cases (w : world) :
  install_sdk w =
    match pip_result w with
    | None => (Ok tt, logs sdk_installed_events w)
    | Some e =>
        if is_Exception e then (Ok tt, logs (sdk_failed_events e) w)
        else (Raise e, logs sdk_interrupted_events w)
    end.
Proof.
  unfold install_sdk, try_except, check_call, print, emit, bind. simpl.
  destruct (pip_result w) as [e|]; [|reflexivity].
  destruct (is_Exception e); reflexivity.
Qed.

Lemma trace_logs (evs : list event) : forall w, trace (logs evs w) = trace w ++ evs.
Proof.
  induction evs as [|ev evs IH]; intros w.
  - simpl. now rewrite app_nil_r.
  - change (logs (ev :: evs) w) with (logs evs (log ev w)).
    rewrite IH. simpl. now rewrite <- app_assoc.
Qed.

Lemma oracles_logs (evs : list event) : forall w,
  os_port (logs evs w) = os_port w /\
  can_bind (logs evs w) = can_bind w /\
  faults (logs evs w) = faults w /\
  pip_result (logs evs w) = pip_result w.
Proof.
  induction evs as [|ev evs IH]; intros w; [simpl; auto|].
  change (logs (ev :: evs) w) with (logs evs (log ev w)).
  destruct (IH (log ev w)) as (A & B & C & D). auto.
Qed.

(** C2 (what the code does).  With [--use-sdk], once pip has succeeded
    the run goes on exactly as a run without the flag: the same server,
    the same client, the same serialiser.  The package that was fetched is
    neither imported nor used.  When pip fails with an error the run goes
    on in the same way, after a line on stderr and one on stdout. *)
Theorem use_sdk_keeps_builtin_path (a : args) (w : world) :
  arg_use_sdk a = true ->
  (pip_result w = None ->
     main a w = main (with_use_sdk false a) (logs sdk_installed_events w)) /\
  (forall e, pip_result w = Some e -> is_Exception e = true ->
     main a w = main (with_use_sdk false a) (logs (sdk_failed_events e) w)).
Proof.
  intros Hs. unfold main. rewrite Hs. split.
  - intros Hp. erewrite bind_ok; [reflexivity|].
    now rewrite install_sdk_cases, Hp.
  - intros e Hp He. erewrite bind_ok; [reflexivity|].
    now rewrite install_sdk_cases, Hp, He.
Qed.

Lemma bind_inv {A B} (m : M A) (k : A -> M B) (w : world)
      (r : result B) (w' : world) :
  bind m k w = (r, w') ->
  (exists a w1, m w = (Ok a, w1) /\ k a w1 = (r, w')) \/
  (exists e, m w = (Raise e, w') /\ r = Raise e) \/
  (m w = (Pending, w') /\ r = Pending).
Proof.
  unfold bind. intros H. destruct (m w) as [[a|e|] w1].
  - left. eauto.
  - inv H. right; left. eauto.
  - inv H. right; right. auto.
Qed.

Lemma port_events_app (a b : list event) :
  port_events (a ++ b) = port_events a ++ port_events b.
Proof. apply filter_app. Qed.

Lemma port_events_no_port (tr : list event) :
  Forall no_port tr -> port_events tr = [].
Proof.
  induction 1 as [|ev tr H _ IH]; [reflexivity|].
  unfold port_events in *. simpl. unfold no_port in H. now rewrite H.
Qed.

Lemma server_io_no_port (ev : event) : is_server_io ev = true -> no_port ev.
Proof. destruct ev; try discriminate; reflexivity. Qed.

Lemma session_no_port (o : json) (iters : Z) (w : world)
      (r : result (Z * Z)) (w' : world) :
  session o iters w = (r, w') -> extends_with no_port w w'.
Proof.
  apply (@keeps_session (extends_with _) no_port); eauto with ext;
    try (intros; reflexivity).
  apply server_io_no_port.
Qed.

Lemma serve_close_spec (w : world) (r : result unit) (w' : world) :
  serve_close w = (r, w') -> r = Ok tt /\ extends_with no_port w w'.
Proof.
  intros H. split.
  - unfold serve_close, bind in H.
    destruct (run_handler w) as [r1 w1] eqn:E.
    destruct (run_handler_spec _ _ _ E) as [-> _]. now inv H.
  - revert H. apply (@keeps_serve_close (extends_with _) no_port);
      eauto with ext; try reflexivity.
    apply server_io_no_port.
Qed.

(** The driver connects at most once, and to the address it was given. *)
Lemma run_benchmark_port_events (host : string) (port iters payload : Z)
      (w : world) (r : result unit) (w' : world) :
  run_benchmark host port iters payload w = (r, w') ->
  exists tr,
    trace w' = trace w ++ tr /\
    (port_events tr = [] \/ port_events tr = [EvConnect (ws_uri host port)]) /\
    (healthy w -> listening w = Some (host, port) ->
     port_events tr = [EvConnect (ws_uri host port)]).
Proof.
  intros H. pose proof H as H0.
  unfold run_benchmark, async_with, bind in H.
  set (uri := ws_uri host port) in *. set (o := msg_obj payload) in *.
  destruct (connect uri w) as [[u|e|] w1] eqn:E1;
    destruct (connect_spec _ _ _ _ E1) as [(R1 & C1 & S1 & T1)|([e1 R1] & T1)];
    try discriminate.
  2: { inv H. exists []. rewrite app_nil_r. split; [auto|]. split; [auto|].
       intros Hh Hl. destruct (connect_healthy host port w Hh Hl) as (w2 & E & _).
       fold uri in E. congruence. }
  destruct u.
  assert (G : forall trs tail,
            Forall no_port trs -> Forall no_port tail ->
            port_events ([EvConnect uri] ++ trs ++ tail) = [EvConnect uri]).
  { intros trs tail F1 F2.
    rewrite !port_events_app, (port_events_no_port _ F1), (port_events_no_port _ F2).
    reflexivity. }
  destruct (session o iters w1) as [[[t0 t1]|e|] w2] eqn:E2;
    destruct (session_no_port _ _ _ _ _ E2) as (trs & T2 & F2).
  - destruct (run_benchmark_after_session _ _ _ _ _ _ _ _ _ _ _ E1 E2 H0)
      as (post & T3 & Hr).
    exists ([EvConnect uri] ++ trs ++ [EvClientClose] ++ post).
    split; [rewrite T3, T2, T1; now norm_app|].
    assert (X : port_events ([EvConnect uri] ++ trs ++ [EvClientClose] ++ post)
                = [EvConnect uri]).
    { apply G; [exact F2|]. constructor; [reflexivity|].
      destruct r as [u|e|]; [| |contradiction].
      - destruct Hr as (_ & _ & ->). repeat constructor.
      - destruct Hr as (_ & _ & ->). constructor. }
    auto.
  - destruct (client_close w2) as [rc w3] eqn:E3.
    destruct (client_close_spec _ _ _ E3) as [-> T3]. simpl in H. inv H.
    exists ([EvConnect uri] ++ trs ++ [EvClientClose]).
    split; [rewrite T3, T2, T1; now norm_app|].
    assert (X : port_events ([EvConnect uri] ++ trs ++ [EvClientClose])
                = [EvConnect uri])
      by (apply G; [exact F2 | repeat constructor]).
    auto.
  - inv H. exists ([EvConnect uri] ++ trs ++ []).
    split; [rewrite T2, T1, app_nil_r; now norm_app|].
    assert (X : port_events ([EvConnect uri] ++ trs ++ []) = [EvConnect uri])
      by (apply G; [exact F2 | constructor]).
    auto.
Qed.

Lemma install_step (a : args) (w : world) (r0 : result unit) (w0 : world) :
  (if arg_use_sdk a then install_sdk else ret tt) w = (r0, w0) ->
  exists evs,
    w0 = logs evs w /\ Forall no_port evs /\
    (r0 = Ok tt \/
     exists e, r0 = Raise e /\ arg_use_sdk a = true /\
               pip_result w = Some e /\ is_Exception e = false).
Proof.
  assert (F : forall evs, forallb (fun ev => negb (is_port_event ev)) evs = true ->
                          Forall no_port evs).
  { intros evs H. apply Forall_forall. intros ev Hin.
    rewrite forallb_forall in H. apply H in Hin.
    unfold no_port. now destruct (is_port_event ev). }
  destruct (arg_use_sdk a).
  - rewrite install_sdk_cases. destruct (pip_result w) as [e|] eqn:Hp.
    + destruct (is_Exception e) eqn:He; intros H; inv H.
      * exists (sdk_failed_events e). split; [reflexivity|]. split; [now apply F|].
        now left.
      * exists sdk_interrupted_events. split; [reflexivity|]. split; [now apply F|].
        right. eauto.
    + intros H; inv H. exists sdk_installed_events.
      split; [reflexivity|]. split; [now apply F | now left].
  - intros H; inv H. exists []. split; [reflexivity|]. split; [constructor | now left].
Qed.

Lemma resolve_port_spec (a : args) (w : world) :
  resolve_port a w =
    (Ok (resolved_port a w),
     logs (if arg_port a =? 0 then [EvProbePort (os_port w)] else []) w).
Proof.
  unfold resolve_port, resolved_port, get_free_port, ret.
  destruct (arg_port a =? 0); reflexivity.
Qed.

(** What a run of [main] shows about ports. *)
Lemma main_port_trace (a : args) (w : world) (r : result unit) (w' : world) :
  main a w = (r, w') ->
  exists tr,
    trace w' = trace w ++ tr /\
    (exists k, port_events tr = firstn k (expected_port_events a w)) /\
    (healthy w ->
     can_bind w (arg_host a) (resolved_port a w) = true ->
     (forall e, arg_use_sdk a = true -> pip_result w = Some e ->
                is_Exception e = true) ->
     port_events tr = expected_port_events a w).
Proof.
  intros H. unfold main in H.
  apply bind_inv in H. destruct H as [(u & w0 & EA & H)|[(e & EA & ->)|(EA & ->)]];
    destruct (install_step a w _ _ EA) as (evs & -> & Fe & Hr0).
  2: { exists evs. rewrite trace_logs. split; [reflexivity|].
       rewrite (port_events_no_port _ Fe). split; [now exists 0%nat|].
       intros _ _ Hpip. destruct Hr0 as [X|(e' & X & Hs & Hp & He)];
         [discriminate|].
       rewrite (Hpip _ Hs Hp) in He. discriminate. }
  2: { destruct Hr0 as [X|(e' & X & _)]; discriminate. }
  clear Hr0 EA u.
  destruct (oracles_logs evs w) as (Ho & Hc & Hf & _).
  apply bind_inv in H. rewrite resolve_port_spec in H.
  destruct H as [(p & wp & EB & H)|[(e & EB & _)|(EB & _)]]; try discriminate.
  inv EB. rewrite Ho in *.
  assert (Hp : resolved_port a (logs evs w) = resolved_port a w)
    by (unfold resolved_port; now rewrite Ho).
  rewrite Hp in *. clear Hp.
  set (p := resolved_port a w) in *. set (h := arg_host a) in *.
  set (probe := if arg_port a =? 0 then [EvProbePort (os_port w)] else []) in *.
  assert (Hx : expected_port_events a w
               = probe ++ [EvServe h p; EvConnect (ws_uri h p)]) by reflexivity.
  assert (Pp : port_events probe = probe)
    by (unfold probe; destruct (arg_port a =? 0); reflexivity).
  assert (Tp : trace (logs probe (logs evs w)) = (trace w ++ evs) ++ probe)
    by (now rewrite !trace_logs).
  destruct (oracles_logs probe (logs evs w)) as (_ & Hc2 & Hf2 & _).
  rewrite Hc in Hc2. rewrite Hf in Hf2.
  set (wp := logs probe (logs evs w)) in *.
  unfold async_with in H. apply bind_inv in H. unfold serve in H at 1 2 3.
  rewrite Hc2 in H.
  destruct (can_bind w h p) eqn:Hb.
  2: { destruct H as [(x & w1 & X & _)|[(e & X & ->)|(X & _)]];
         try discriminate.
       inv X. exists (evs ++ probe). rewrite Tp. split; [now norm_app|].
       rewrite port_events_app, (port_events_no_port _ Fe), Pp.
       split; [|discriminate].
       exists (length probe). rewrite Hx, firstn_app, firstn_all, Nat.sub_diag.
       simpl. now rewrite app_nil_r. }
  destruct H as [(x & w1 & X & H)|[(e & X & _)|(X & _)]]; try discriminate.
  inv X. cbv beta in H.
  set (w1 := log (EvServe h p) (set_listening (Some (h, p)) wp)) in *.
  destruct (run_benchmark h p (arg_iters a) (arg_payload a) w1)
    as [rb w2] eqn:ER.
  destruct (run_benchmark_port_events _ _ _ _ _ _ _ ER) as (trb & T2 & Hrb & Hfull).
  assert (T1 : trace w1 = trace w ++ evs ++ probe ++ [EvServe h p])
    by (unfold w1; cbn [trace log set_listening]; rewrite Tp; now norm_app).
  assert (Done : forall tail,
            Forall no_port tail ->
            trace w' = trace w2 ++ tail ->
            exists tr,
              trace w' = trace w ++ tr /\
              (exists k, port_events tr = firstn k (expected_port_events a w)) /\
              (healthy w -> true = true ->
               (forall e, arg_use_sdk a = true -> pip_result w = Some e ->
                          is_Exception e = true) ->
               port_events tr = expected_port_events a w)).
  { intros tail Ft T3.
    exists (evs ++ probe ++ [EvServe h p] ++ trb ++ tail).
    split; [rewrite T3, T2, T1; now norm_app|].
    assert (Y : port_events (evs ++ probe ++ [EvServe h p] ++ trb ++ tail)
                = probe ++ [EvServe h p] ++ port_events trb).
    { rewrite !port_events_app, (port_events_no_port _ Fe),
        (port_events_no_port _ Ft), Pp, app_nil_r. reflexivity. }
    rewrite Y, Hx. split.
    - destruct Hrb as [-> | ->].
      + exists (length probe + 1)%nat. rewrite firstn_app_2. reflexivity.
      + exists (length probe + 2)%nat. rewrite firstn_app_2. reflexivity.
    - intros Hh _ _. rewrite Hfull; [reflexivity| |reflexivity].
      intros k. unfold w1. cbn [faults log set_listening]. rewrite Hf2. apply Hh. }
  destruct rb as [b|e|].
  - apply bind_inv in H.
    destruct H as [(x & w3 & X & H)|[(e & X & _)|(X & _)]];
      destruct (serve_close_spec _ _ _ X) as [Q (tail & T3 & Ft)];
      try discriminate.
    inv H. eapply Done; eauto.
  - apply bind_inv in H.
    destruct H as [(x & w3 & X & H)|[(e' & X & _)|(X & _)]];
      destruct (serve_close_spec _ _ _ X) as [Q (tail & T3 & Ft)];
      try discriminate.
    inv H. eapply Done; eauto.
  - inv H. apply (Done []); [constructor | now rewrite app_nil_r].
Qed.

(** C8.  The events about ports of any run of [main] form a prefix of:
    the probe of the operating system when the configured port is zero
    (and no probe otherwise), then the server listening on the resolved
    port, then the client connecting to the same port.  The resolved port
    is the one the probe obtained when the configured port is zero, and
    the configured port as it is otherwise.  A run that meets no obstacle
    shows all of them. *)
Theorem port_resolution (a : args) (w : world) :
  let tr := events_of (main a) w in
  (exists k, port_events tr = firstn k (expected_port_events a w)) /\
  (healthy w ->
   can_bind w (arg_host a) (resolved_port a w) = true ->
   (forall e, arg_use_sdk a = true -> pip_result w = Some e ->
              is_Exception e = true) ->
   port_events tr = expected_port_events a w).
Proof.
  intros tr. subst tr. destruct (main a w) as [r w'] eqn:H.
  destruct (main_port_trace _ _ _ _ H) as (tr & T & Hk & Hfull).
  destruct (run_events _ _ _ _ _ H T) as [_ ->]. auto.
Qed.

(** ** The claims about the message and the metrics *)







(** The report of a run that returns normally carries these two values,
    for the difference of the two readings of the timer. *)
Lemma report_on_success (host : string) (port iters payload : Z) (w : world) :
  outcome (run_benchmark host port iters payload) w = Ok tt ->
  exists t0 t1 before,
    iters <> 0 /\ t1 - t0 <> 0 /\
    events_of (run_benchmark host port iters payload) w
    = before ++ [EvClock t1; EvClientClose]
        ++ report_events (msg_obj payload) iters payload (t1 - t0) /\
    before_timer (after_timer (before ++ [EvClock t1])) =
      flat_map (fun _ => exchange (msg_obj payload)) (py_range iters) /\
    exists pre, before = pre ++ EvClock t0 :: flat_map (fun _ => exchange (msg_obj payload)) (py_range iters).
Proof.
  unfold outcome. destruct (run_benchmark host port iters payload w) as [r w'] eqn:H.
  simpl. intros ->.
  destruct (run_benchmark_spec _ _ _ _ _ _ _ H) as (tr & T & Hc).
  destruct (run_events _ _ _ _ _ H T) as [_ ->].
  destruct Hc as [[_ N]|[(t0 & rest & _ & _ & N)|(t0 & t1 & post & -> & Hr)]];
    try congruence.
  destruct Hr as (N1 & N2 & ->).
  exists t0, t1.
  exists ([EvConnect (ws_uri host port)] ++ exchange (msg_obj payload) ++ [EvClock t0]
            ++ flat_map (fun _ => exchange (msg_obj payload)) (py_range iters)).
  split; [exact N1|]. split; [exact N2|]. split; [now norm_app|]. split.
  - rewrite <- !app_assoc. cbn. apply before_timer_stops.
    clear. induction (py_range iters) as [|x l IH]; simpl; [constructor|].
    repeat (constructor; [reflexivity|]). exact IH.
  - exists ([EvConnect (ws_uri host port)] ++ exchange (msg_obj payload)).
    now norm_app.
Qed.

(** * More about a run *)

(** ** Two more instances of [keeps] *)

Lemma same_listening_trans (a b c : world) :
  same_listening a b -> same_listening b c -> same_listening a c.
Proof. unfold same_listening. congruence. Qed.

Lemma same_listening_close_link (w : world) : same_listening w (close_link w).
Proof. unfold same_listening, close_link. now destruct (link w). Qed.

Lemma same_listening_inbox (s : side) (q : list frame) (w : world) :
  same_listening w (set_inbox s q w).
Proof. now destruct s. Qed.

Create HintDb listen.
#[local] Hint Resolve same_listening_trans same_listening_close_link
  same_listening_inbox : listen.
#[local] Hint Extern 1 (same_listening _ _) => reflexivity : listen.

Lemma same_clock_trans (a b c : world) :
  same_clock a b -> same_clock b c -> same_clock a c.
Proof. unfold same_clock. intros [A1 A2] [B1 B2]. split; congruence. Qed.

Lemma same_clock_close_link (w : world) : same_clock w (close_link w).
Proof. unfold same_clock, close_link. now destruct (link w). Qed.

Lemma same_clock_inbox (s : side) (q : list frame) (w : world) :
  same_clock w (set_inbox s q w).
Proof. destruct s; split; reflexivity. Qed.

Create HintDb clock.
#[local] Hint Resolve same_clock_trans same_clock_close_link same_clock_inbox : clock.
#[local] Hint Extern 1 (same_clock _ _) => (split; reflexivity) : clock.

(** ** The shape of every run of [run_benchmark] *)

Lemma server_io_session_event (o : json) (ev : event) :
  is_server_io ev = true -> session_event o ev.
Proof.
  intros H. destruct ev; try discriminate H;
    destruct s; try discriminate H; split; (reflexivity || exact I).
Qed.

Lemma session_events (o : json) (iters : Z) (w : world)
      (r : result (Z * Z)) (w' : world) :
  session o iters w = (r, w') -> extends_with (session_event o) w w'.
Proof.
  apply (@keeps_session_of (extends_with _) (session_event o)); eauto with ext.
  - apply server_io_session_event.
  - intros m. split; [reflexivity | exact I].
  - split; reflexivity.
  - split; reflexivity.
  - intros t. split; [reflexivity | exact I].
Qed.

(** With the link closed, one turn of the event loop ends the handler
    and shows nothing. *)
Lemma run_handler_closed_state (w : world) (e : exn) (r : result unit) (w1 : world) :
  link w = Some e -> run_handler w = (r, w1) ->
  handler_alive w1 = false /\ link w1 = Some e /\
  listening w1 = listening w /\ trace w1 = trace w.
Proof.
  intros Hl H. unfold run_handler in H.
  destruct (handler_alive w) eqn:A; [|inv H; auto].
  assert (E : exists r2, echo_handler w = (r2, w) /\ r2 <> Pending).
  { unfold echo_handler, try_except. destruct (inbox ServerSide w); simpl;
      rewrite (ws_recv_closed _ _ _ Hl);
      destruct e; simpl; eexists; split; try reflexivity; discriminate. }
  destruct E as [r2 [E N]]. rewrite E in H.
  destruct r2 as [u|e2|]; [| |congruence]; inv H;
    unfold close_link; simpl; rewrite Hl; simpl; auto.
Qed.

Lemma client_close_state (w : world) (r : result unit) (w' : world) :
  client_close w = (r, w') ->
  link w' <> None /\ handler_alive w' = false /\ listening w' = listening w.
Proof.
  unfold client_close, bind. intros H.
  destruct (close_link_closed w) as [e L].
  destruct (run_handler (close_link w)) as [r1 w1] eqn:E.
  destruct (run_handler_closed_state _ _ _ _ L E) as (A & L1 & Li & _).
  destruct (run_handler_closed _ _ _ _ L E) as [-> _].
  inv H. simpl. rewrite L1, A, Li. repeat split; try congruence.
  unfold close_link. now destruct (link w).
Qed.

(** Lines 88-94 touch neither the connection nor the server. *)
Lemma run_benchmark_after_close (host : string) (port iters payload : Z)
      (w w1 w2 w3 : world) (rs : result (Z * Z)) (r : result unit) (w' : world) :
  connect (ws_uri host port) w = (Ok tt, w1) ->
  session (msg_obj payload) iters w1 = (rs, w2) ->
  rs <> Pending ->
  client_close w2 = (Ok tt, w3) ->
  run_benchmark host port iters payload w = (r, w') ->
  link w' = link w3 /\ handler_alive w' = handler_alive w3 /\
  listening w' = listening w3 /\
  (forall e, rs = Raise e -> r = Raise e /\ trace w' = trace w3).
Proof.
  intros E1 E2 N E3 H. unfold run_benchmark, async_with, bind in H.
  rewrite E1, E2 in H. destruct rs as [[t0 t1]|e|]; [| |congruence];
    rewrite E3 in H; simpl in H.
  - unfold lift, ns_per_of, ops_per_sec_of in H.
    assert (G : forall (x : world) (a b c : Prop), a -> b -> c ->
              a /\ b /\ c /\
              (forall e, Ok (t0, t1) = Raise e -> r = Raise e /\ trace w' = trace x)).
    { intros x a b c Ha Hb Hc. repeat (split; [assumption|]). discriminate. }
    destruct (iters =? 0); [inv H; now apply G|].
    destruct (t1 - t0 =? 0); inv H; now apply G.
  - inv H. repeat (split; [reflexivity|]). intros e' X. now inv X.
Qed.

Lemma filter_clock_nil (tr : list event) :
  clock_count tr = 0%nat -> filter is_clock tr = [].
Proof. unfold clock_count. apply length_zero_iff_nil. Qed.

(** A run of [run_benchmark] ends in one of three ways.  The connection
    could not be opened: nothing shows.  The driver waits for ever for a
    reply: the connection stays open.  Otherwise the connection was opened
    and closed, what happened in between is a session on the template, and
    the report follows the closing exactly when the run returns. *)
Lemma run_benchmark_shape (host : string) (port iters payload : Z)
      (w : world) (r : result unit) (w' : world) :
  run_benchmark host port iters payload w = (r, w') ->
  let o := msg_obj payload in
  let uri := ws_uri host port in
  ((exists e, r = Raise e) /\ trace w' = trace w /\
   listening w' = listening w) \/
  (exists trs,
     r = Pending /\ trace w' = trace w ++ [EvConnect uri] ++ trs /\
     Forall (session_event o) trs /\ listening w' = listening w) \/
  (exists trs post,
     trace w' = trace w ++ [EvConnect uri] ++ trs ++ [EvClientClose] ++ post /\
     Forall (session_event o) trs /\
     link w' <> None /\ handler_alive w' = false /\
     listening w' = listening w /\
     match r with
     | Ok _ =>
         exists t0 t1,
           filter is_clock trs = [EvClock t0; EvClock t1] /\
           iters <> 0 /\ t1 - t0 <> 0 /\
           post = report_events o iters payload (t1 - t0)
     | Raise _ => post = []
     | Pending => False
     end).
Proof.
  intros H o uri. pose proof H as H0.
  unfold run_benchmark, async_with, bind in H. fold o uri in H.
  assert (Lc : forall r1 w1, connect uri w = (r1, w1) -> listening w1 = listening w).
  { intros r1 w1.
    apply (@keeps_connect same_listening (fun _ => True)); eauto with listen. }
  assert (Ls : forall w1 rs w2, session o iters w1 = (rs, w2) ->
                                listening w2 = listening w1).
  { intros w1 rs w2.
    apply (@keeps_session_of same_listening (fun _ => True)); eauto with listen. }
  destruct (connect uri w) as [[u|e|] w1] eqn:E1;
    destruct (connect_spec _ _ _ _ E1) as [(R1 & C1 & S1 & T1)|([e1 R1] & T1)];
    try discriminate.
  2: { inv H. left. split; [eauto|]. split; [exact T1|]. exact (Lc _ _ eq_refl). }
  destruct u. pose proof (Lc _ _ eq_refl) as L1.
  destruct (session o iters w1) as [rs w2] eqn:E2.
  pose proof (Ls _ _ _ E2) as L2.
  destruct (session_events _ _ _ _ _ E2) as (trs & T2 & F2).
  destruct rs as [[t0 t1]|e|].
  - destruct (client_close w2) as [rc w3] eqn:E3.
    destruct (client_close_spec _ _ _ E3) as [-> T3].
    destruct (client_close_state _ _ _ E3) as (K1 & K2 & K3).
    destruct (run_benchmark_after_close _ _ _ _ _ _ _ _ _ _ _ E1 E2
                ltac:(discriminate) E3 H0) as (A1 & A2 & A3 & _).
    destruct (run_benchmark_after_session _ _ _ _ _ _ _ _ _ _ _ E1 E2 H0)
      as (post & T4 & Hr).
    right; right. exists trs, post.
    split; [rewrite T4, T2, T1; now norm_app|].
    split; [exact F2|]. rewrite A1, A2, A3, K3, L2, L1.
    repeat split; auto.
    destruct (session_spec _ _ _ _ _ C1 S1 E2) as (trs' & T2' & Hs).
    rewrite T2 in T2'. apply app_inv_head in T2'. subst trs'.
    fold o in Hr. destruct r as [u|e|]; [| |contradiction].
    + destruct Hr as (N1 & N2 & ->). exists t0, t1. repeat split; auto.
      rewrite Hs, !filter_app, (filter_clock_nil _ (clock_count_exchange o)),
        (filter_clock_nil _ (clock_count_loop o _)). reflexivity.
    + now destruct Hr as (_ & _ & ->).
  - destruct (client_close w2) as [rc w3] eqn:E3.
    destruct (client_close_spec _ _ _ E3) as [-> T3].
    destruct (client_close_state _ _ _ E3) as (K1 & K2 & K3).
    destruct (run_benchmark_after_close _ _ _ _ _ _ _ _ _ _ _ E1 E2
                ltac:(discriminate) E3 H0) as (A1 & A2 & A3 & A4).
    destruct (A4 e eq_refl) as [-> T4].
    right; right. exists trs, [].
    split; [rewrite T4, T3, T2, T1; now norm_app|].
    split; [exact F2|]. rewrite A1, A2, A3, K3, L2, L1. repeat split; auto.
  - inv H. right; left. exists trs.
    split; [reflexivity|]. split; [rewrite T2, T1; now norm_app|].
    split; [exact F2|]. now rewrite L2, L1.
Qed.

Lemma filter_none (f : event -> bool) (P : event -> Prop) (tr : list event) :
  (forall ev, P ev -> f ev = false) -> Forall P tr -> filter f tr = [].
Proof.
  intros Hf. induction 1 as [|ev tr H _ IH]; [reflexivity|].
  simpl. now rewrite (Hf _ H).
Qed.

Lemma session_event_no_print (o : json) (ev : event) :
  session_event o ev -> is_print ev = false.
Proof. intros [H _]. destruct ev; try discriminate H; reflexivity. Qed.

Lemma session_event_no_connection (o : json) (ev : event) :
  session_event o ev -> is_connection_event ev = false.
Proof. intros [H _]. destruct ev; try discriminate H; reflexivity. Qed.

Lemma session_event_from_template (o : json) (ev : event) :
  session_event o ev -> from_template o ev.
Proof. intros [_ H]. exact H. Qed.

(** ** The report: both lines or none

    X1.  A run of [run_benchmark] that returns normally has read the timer
    exactly twice and has printed exactly two lines, both on stdout: the
    summary with the size of one encoded message, then the metrics for
    the difference of the two readings.  A run that ends in any other way
    has printed nothing. *)
Theorem report_all_or_nothing (host : string) (port iters payload : Z)
        (w : world) :
  let run := run_benchmark host port iters payload in
  let o := msg_obj payload in
  match outcome run w with
  | Ok _ =>
      exists t0 t1,
        filter is_clock (events_of run w) = [EvClock t0; EvClock t1] /\
        filter is_print (events_of run w) =
          [ EvPrint Stdout
              (Line (summary_line iters payload (Z.of_nat (length (encode o)))));
            EvPrint Stdout
              (MetricsLine
                 (float_div (float_of_int (t1 - t0)) float_1e9)
                 (int_truediv (t1 - t0) iters)
                 (float_div (float_mul float_1e9 (float_of_int iters))
                            (float_of_int (t1 - t0)))) ]
  | _ => filter is_print (events_of run w) = []
  end.
Proof.
  intros run o. subst run.
  destruct (run_benchmark host port iters payload w) as [r w'] eqn:H.
  destruct (run_benchmark_shape _ _ _ _ _ _ _ H)
    as [([e ->] & T & _)|[(trs & -> & T & F & _)|(trs & post & T & F & _ & _ & _ & Hr)]].
  - rewrite <- (app_nil_r (trace w)) in T.
    destruct (run_events _ _ _ _ _ H T) as [-> ->]. reflexivity.
  - destruct (run_events _ _ _ _ _ H T) as [-> ->].
    rewrite filter_app, (filter_none _ _ _ (session_event_no_print o) F).
    reflexivity.
  - destruct (run_events _ _ _ _ _ H T) as [-> ->].
    pose proof (filter_none _ _ _ (session_event_no_print o) F) as Np.
    destruct r as [u|e|]; [| |contradiction].
    + destruct Hr as (t0 & t1 & Hc & _ & _ & ->). exists t0, t1. split.
      * rewrite !filter_app, Hc. reflexivity.
      * rewrite !filter_app, Np. reflexivity.
    + subst post. rewrite !filter_app, Np. reflexivity.
Qed.

(** ** The connection is closed

    X2.  A run of [run_benchmark] that does not wait for ever either never
    opened the connection, or opened it once, to the address it was given,
    and closed it once: the connection is then closed and the handler
    task has ended, whether the run returned or raised. *)
Theorem connection_always_closed (host : string) (port iters payload : Z)
        (w : world) :
  let run := run_benchmark host port iters payload in
  outcome run w <> Pending ->
  filter is_connection_event (events_of run w) = [] \/
  (filter is_connection_event (events_of run w)
     = [EvConnect (ws_uri host port); EvClientClose] /\
   link (snd (run w)) <> None /\
   handler_alive (snd (run w)) = false).
Proof.
  intros run. subst run.
  destruct (run_benchmark host port iters payload w) as [r w'] eqn:H.
  destruct (run_benchmark_shape _ _ _ _ _ _ _ H)
    as [([e ->] & T & _)|[(trs & -> & T & F & _)
                         |(trs & post & T & F & L & A & _ & Hr)]].
  - rewrite <- (app_nil_r (trace w)) in T.
    destruct (run_events _ _ _ _ _ H T) as [_ ->]. now left.
  - destruct (run_events _ _ _ _ _ H T) as [-> _]. intros N. now elim N.
  - destruct (run_events _ _ _ _ _ H T) as [_ ->]. intros _. right.
    simpl snd. split; [|auto].
    rewrite !filter_app,
      (filter_none _ _ _ (session_event_no_connection (msg_obj payload)) F).
    destruct r as [u|e|]; [| |contradiction].
    + destruct Hr as (t0 & t1 & _ & _ & _ & ->). reflexivity.
    + subst post. reflexivity.
Qed.

(** ** One message, encoded again and again

    X6.  In every run of [run_benchmark], however it ends, each call of
    the serialiser encodes the template built from the payload size, and
    each frame the driver sends is a binary frame that carries this
    encoding: the warm-up, the timed loop and the size in the report all
    use the same message. *)
Theorem driver_sends_only_the_template (host : string) (port iters payload : Z)
        (w : world) :
  Forall (from_template (msg_obj payload))
         (events_of (run_benchmark host port iters payload) w).
Proof.
  destruct (run_benchmark host port iters payload w) as [r w'] eqn:H.
  destruct (run_benchmark_shape _ _ _ _ _ _ _ H)
    as [([e ->] & T & _)|[(trs & -> & T & F & _)
                         |(trs & post & T & F & _ & _ & _ & Hr)]].
  - rewrite <- (app_nil_r (trace w)) in T.
    destruct (run_events _ _ _ _ _ H T) as [_ ->]. constructor.
  - destruct (run_events _ _ _ _ _ H T) as [_ ->].
    apply Forall_app. split; [repeat constructor|].
    eapply Forall_impl; [apply session_event_from_template | exact F].
  - destruct (run_events _ _ _ _ _ H T) as [_ ->].
    repeat (apply Forall_app; split); try (repeat constructor; fail).
    + eapply Forall_impl; [apply session_event_from_template | exact F].
    + destruct r as [u|e|]; [| |contradiction].
      * destruct Hr as (t0 & t1 & _ & _ & _ & ->). repeat constructor.
      * subst post. constructor.
Qed.

(** ** The measured interval *)

Lemma client_send_same_clock (d : list byte) (w : world) (r : result unit) (w' : world) :
  client_send d w = (r, w') -> same_clock w w'.
Proof.
  unfold client_send.
  apply (@keeps_ws_send same_clock (fun _ => True)); eauto with clock.
Qed.

Lemma client_recv_same_clock (w : world) (r : result frame) (w' : world) :
  client_recv w = (r, w') -> same_clock w w'.
Proof. apply (@keeps_client_recv same_clock (fun _ => True)); eauto with clock. Qed.

Lemma timed_loop_same_clock (o : json) (iters : Z) (w : world)
      (r : result unit) (w' : world) :
  for_each (py_range iters) (fun _ => round_trip o) w = (r, w') -> same_clock w w'.
Proof. apply (@keeps_timed_loop same_clock (fun _ => True)); eauto with clock. Qed.

Lemma connect_same_clock (uri : string) (w : world) (r : result unit) (w' : world) :
  connect uri w = (r, w') -> same_clock w w'.
Proof. apply (@keeps_connect same_clock (fun _ => True)); eauto with clock. Qed.

(** The two readings of a session that runs to its end are the next two
    readings of the timer: nothing else reads it. *)
Lemma session_readings (o : json) (iters : Z) (w : world) (t0 t1 : Z) (w' : world) :
  session o iters w = (Ok (t0, t1), w') ->
  t0 = timer w (clock_reads w) /\ t1 = timer w (S (clock_reads w)).
Proof.
  intros H. unfold session, bind in H. rewrite do_encode_spec in H.
  destruct (client_send _ _) as [[u|e|] w1] eqn:E1; try discriminate.
  apply client_send_same_clock in E1. destruct E1 as [A1 B1]. simpl in A1, B1.
  destruct (client_recv w1) as [[m|e|] w2] eqn:E2; try discriminate.
  apply client_recv_same_clock in E2. destruct E2 as [A2 B2].
  unfold perf_counter_ns at 1 in H.
  destruct (for_each _ _ _) as [[u'|e|] w4] eqn:E3; try discriminate.
  apply timed_loop_same_clock in E3. destruct E3 as [A3 B3]. simpl in A3, B3.
  unfold perf_counter_ns, ret in H. inv H.
  rewrite A3, B3, A2, B2, A1, B1. auto.
Qed.

(** On a healthy network with the server listening, the whole of a run. *)
Lemma run_benchmark_healthy_outcome (host : string) (port iters payload : Z)
      (w : world) (r : result unit) (w' : world) :
  healthy w -> listening w = Some (host, port) ->
  run_benchmark host port iters payload w = (r, w') ->
  let o := msg_obj payload in
  let t0 := timer w (clock_reads w) in
  let t1 := timer w (S (clock_reads w)) in
  trace w' = trace w ++ [EvConnect (ws_uri host port)] ++ exchange o ++ [EvClock t0]
               ++ flat_map (fun _ => exchange o) (py_range iters)
               ++ [EvClock t1; EvClientClose]
               ++ (if divides_by_zero iters (t1 - t0) then []
                   else report_events o iters payload (t1 - t0)) /\
  r = (if divides_by_zero iters (t1 - t0) then Raise ZeroDivisionError else Ok tt) /\
  link w' <> None.
Proof.
  intros Hh Hl H o t0 t1.
  enough (G : (trace w' = trace w ++ [EvConnect (ws_uri host port)] ++ exchange o
                 ++ [EvClock t0]
                 ++ flat_map (fun _ => exchange o) (py_range iters)
                 ++ [EvClock t1; EvClientClose]
                 ++ (if divides_by_zero iters (t1 - t0) then []
                     else report_events o iters payload (t1 - t0)) /\
               r = (if divides_by_zero iters (t1 - t0)
                    then Raise ZeroDivisionError else Ok tt))).
  { destruct G as [G1 G2]. split; [exact G1|]. split; [exact G2|].
    destruct (run_benchmark_shape _ _ _ _ _ _ _ H)
      as [(_ & T & _)|[(trs & -> & _)|(trs & post & _ & _ & L & _)]];
      [| |exact L].
    - rewrite T in G1. rewrite <- (app_nil_r (trace w)) in G1 at 1.
      apply app_inv_head in G1. discriminate.
    - destruct (divides_by_zero iters (t1 - t0)); discriminate. }
  destruct (connect_healthy host port w Hh Hl) as (w1 & E1 & Hr1).
  destruct (connect_spec _ _ _ _ E1) as [(_ & C1 & S1 & T1)|([e X] & _)];
    [|discriminate].
  destruct (connect_same_clock _ _ _ _ E1) as [A1 B1].
  destruct (session_healthy o iters w1 Hr1) as (t0' & t1' & w2 & E2).
  destruct (session_readings _ _ _ _ _ _ E2) as [R0 R1].
  rewrite A1, B1 in R0, R1. fold t0 in R0. fold t1 in R1. subst t0' t1'.
  destruct (session_spec _ _ _ _ _ C1 S1 E2) as (trs & T2 & ->).
  destruct (run_benchmark_after_session _ _ _ _ _ _ _ _ _ _ _ E1 E2 H)
    as (post & T3 & Hr).
  fold o in Hr. unfold divides_by_zero.
  destruct r as [[]|e|]; [| |contradiction].
  - destruct Hr as (N1 & N2 & ->).
    apply Z.eqb_neq in N1, N2. rewrite N1, N2. simpl.
    split; [|reflexivity]. rewrite T3, T2, T1. now norm_app.
  - destruct Hr as (-> & N & ->).
    assert (D : (iters =? 0) || (t1 - t0 =? 0) = true).
    { destruct N as [N|N]; apply Z.eqb_eq in N; rewrite N;
        [reflexivity | apply orb_true_r]. }
    rewrite D. split; [|reflexivity]. rewrite T3, T2, T1. now norm_app.
Qed.

Lemma filter_clock_loop (o : json) (l : list Z) :
  filter is_clock (flat_map (fun _ => exchange o) l) = [].
Proof. apply filter_clock_nil, clock_count_loop. Qed.

(** X5.  On a healthy network with the server listening where the driver
    connects, [run_benchmark] reads the timer exactly twice, and the two
    readings are consecutive readings of the clock.  The run returns
    normally unless the iteration count is zero or the two readings are
    equal; in these two cases, and only in them, it raises
    [ZeroDivisionError]. *)
Theorem healthy_run_outcome (host : string) (port iters payload : Z) (w : world) :
  healthy w -> listening w = Some (host, port) ->
  let run := run_benchmark host port iters payload in
  let t0 := timer w (clock_reads w) in
  let t1 := timer w (S (clock_reads w)) in
  filter is_clock (events_of run w) = [EvClock t0; EvClock t1] /\
  outcome run w =
    (if divides_by_zero iters (t1 - t0) then Raise ZeroDivisionError else Ok tt).
Proof.
  intros Hh Hl run t0 t1. subst run.
  destruct (run_benchmark host port iters payload w) as [r w'] eqn:H.
  destruct (run_benchmark_healthy_outcome _ _ _ _ _ _ _ Hh Hl H) as (T & Hr & _).
  destruct (run_events _ _ _ _ _ H T) as [-> ->]. split; [|exact Hr].
  fold t0 t1. rewrite !filter_app, filter_clock_loop.
  destruct (divides_by_zero iters (t1 - t0)); reflexivity.
Qed.

(** X12.  A negative iteration count is not rejected either.  On a
    healthy network, with a clock that has advanced between the two
    readings, the run returns normally: the timed loop has not made a
    single round trip, and the report carries the quotient of the elapsed
    time by the negative count. *)
Theorem negative_iters_reports (host : string) (port iters payload : Z) (w : world) :
  iters < 0 ->
  healthy w -> listening w = Some (host, port) ->
  timer w (S (clock_reads w)) <> timer w (clock_reads w) ->
  let run := run_benchmark host port iters payload in
  let total_ns := timer w (S (clock_reads w)) - timer w (clock_reads w) in
  outcome run w = Ok tt /\
  timed_segment (client_view (events_of run w)) = [] /\
  In (EvPrint Stdout
        (MetricsLine (float_div (float_of_int total_ns) float_1e9)
                     (int_truediv total_ns iters)
                     (float_div (float_mul float_1e9 (float_of_int iters))
                                (float_of_int total_ns))))
     (events_of run w).
Proof.
  intros Hi Hh Hl Ht run total_ns. subst run.
  destruct (run_benchmark host port iters payload w) as [r w'] eqn:H.
  destruct (run_benchmark_healthy_outcome _ _ _ _ _ _ _ Hh Hl H) as (T & Hr & _).
  destruct (run_events _ _ _ _ _ H T) as [-> ->]. fold total_ns in Hr |- *.
  assert (D : divides_by_zero iters total_ns = false).
  { unfold divides_by_zero.
    destruct (Z.eqb_spec iters 0); [lia|].
    destruct (Z.eqb_spec total_ns 0); [unfold total_ns in *; lia | reflexivity]. }
  rewrite D in *. split; [exact Hr|].
  assert (E : py_range iters = []).
  { unfold py_range. replace (Z.to_nat iters) with 0%nat by lia. reflexivity. }
  rewrite E. split; [reflexivity|].
  do 5 (apply in_or_app; right). simpl. auto.
Qed.

(** ** [main] as a whole *)

Lemma install_step_exact (a : args) (w : world) :
  (if arg_use_sdk a then install_sdk else ret tt) w
  = (install_outcome a w, logs (install_events a w) w).
Proof.
  unfold install_outcome, install_events. destruct (arg_use_sdk a); [|reflexivity].
  rewrite install_sdk_cases. destruct (pip_result w) as [e|]; [|reflexivity].
  destruct (is_Exception e); reflexivity.
Qed.

Lemma state_logs (evs : list event) : forall w,
  timer (logs evs w) = timer w /\
  clock_reads (logs evs w) = clock_reads w /\
  listening (logs evs w) = listening w /\
  link (logs evs w) = link w /\
  handler_alive (logs evs w) = handler_alive w.
Proof.
  induction evs as [|ev evs IH]; intros w; [simpl; auto|].
  change (logs (ev :: evs) w) with (logs evs (log ev w)).
  destruct (IH (log ev w)) as (A & B & C & D & E). auto.
Qed.

(** Leaving [async with websockets.serve(...)] always succeeds; the
    server stops listening, and this is the last thing that shows. *)
Lemma serve_close_exact (w : world) (r : result unit) (w' : world) :
  serve_close w = (r, w') ->
  r = Ok tt /\ listening w' = None /\
  exists srv,
    trace w' = trace w ++ srv ++ [EvServeClose] /\
    Forall (fun ev => is_server_io ev = true) srv /\
    (link w <> None -> srv = []).
Proof.
  unfold serve_close, bind. intros H.
  destruct (run_handler w) as [r1 w1] eqn:E.
  destruct (run_handler_spec _ _ _ E) as [-> _].
  destruct (run_handler_ext _ _ _ E) as (srv & T & F).
  inv H. split; [reflexivity|]. split; [reflexivity|].
  exists srv. simpl. rewrite T, <- app_assoc. repeat split; auto.
  intros L. destruct (link w) as [e|] eqn:Le; [|congruence].
  destruct (run_handler_closed _ _ _ _ Le E) as [_ T2].
  rewrite T2 in T. rewrite <- (app_nil_r (trace w)) in T at 1.
  apply app_inv_head in T. auto.
Qed.

(** The three ways a run of [main] can go: the installation is
    interrupted; the server cannot bind; or the server listens, the
    benchmark runs, and the server is closed unless the benchmark waits
    for ever. *)
Lemma main_shape (a : args) (w : world) (r : result unit) (w' : world) :
  main a w = (r, w') ->
  (exists e,
     install_outcome a w = Raise e /\ r = Raise e /\
     w' = logs (install_events a w) w) \/
  (install_outcome a w = Ok tt /\
   can_bind w (arg_host a) (resolved_port a w) = false /\
   r = Raise OSError /\ w' = before_serve a w) \/
  (install_outcome a w = Ok tt /\
   can_bind w (arg_host a) (resolved_port a w) = true /\
   exists rb w2,
     run_benchmark (arg_host a) (resolved_port a w) (arg_iters a) (arg_payload a)
                   (serving a w) = (rb, w2) /\
     match rb with
     | Pending => r = Pending /\ w' = w2
     | _ => r = rb /\ serve_close w2 = (Ok tt, w')
     end).
Proof.
  intros H. unfold main in H. apply bind_inv in H.
  rewrite install_step_exact in H.
  destruct H as [(u & w0 & EA & H)|[(e & EA & ->)|(EA & ->)]].
  2: { inv EA. left. eauto. }
  2: { exfalso. revert EA. unfold install_outcome.
       destruct (arg_use_sdk a); [|discriminate].
       destruct (pip_result w) as [e|]; [|discriminate].
       destruct (is_Exception e); discriminate. }
  destruct u. injection EA as EA <-. right.
  destruct (oracles_logs (install_events a w) w) as (Ho & Hc & _ & _).
  apply bind_inv in H. rewrite resolve_port_spec in H.
  destruct H as [(p & wp & EB & H)|[(e & EB & _)|(EB & _)]]; try discriminate.
  injection EB as <- <-.
  assert (Hp : resolved_port a (logs (install_events a w) w) = resolved_port a w)
    by (unfold resolved_port; now rewrite Ho).
  rewrite Hp, Ho in H. fold (probe_events a w) in H. fold (before_serve a w) in H.
  destruct (oracles_logs (probe_events a w) (logs (install_events a w) w))
    as (_ & Hc2 & _ & _).
  fold (before_serve a w) in Hc2. rewrite Hc in Hc2.
  unfold async_with in H. apply bind_inv in H. unfold serve in H at 1 2 3.
  rewrite Hc2 in H.
  destruct (can_bind w (arg_host a) (resolved_port a w)) eqn:Hb.
  2: { left. destruct H as [(x & w1 & X & _)|[(e & X & ->)|(X & _)]];
         try discriminate.
       inv X. auto. }
  right. split; [exact EA|]. split; [reflexivity|].
  destruct H as [(x & w1 & X & H)|[(e & X & _)|(X & _)]]; try discriminate.
  injection X as _ <-. cbv beta in H. fold (serving a w) in H.
  destruct (run_benchmark _ _ _ _ (serving a w)) as [rb w2] eqn:ER.
  exists rb, w2. split; [reflexivity|].
  destruct rb as [b|e|].
  - apply bind_inv in H.
    destruct H as [(x' & w3 & X & H)|[(e & X & _)|(X & _)]];
      destruct (serve_close_exact _ _ _ X) as [Q _]; try discriminate.
    inv H. destruct b, x'. auto.
  - apply bind_inv in H.
    destruct H as [(x' & w3 & X & H)|[(e' & X & _)|(X & _)]];
      destruct (serve_close_exact _ _ _ X) as [Q _]; try discriminate.
    inv H. destruct x'. auto.
  - inv H. auto.
Qed.

Lemma trace_before_serve (a : args) (w : world) :
  trace (before_serve a w) = trace w ++ install_events a w ++ probe_events a w.
Proof. unfold before_serve. rewrite !trace_logs. now norm_app. Qed.

Lemma trace_serving (a : args) (w : world) :
  trace (serving a w)
  = trace w ++ install_events a w ++ probe_events a w
      ++ [EvServe (arg_host a) (resolved_port a w)].
Proof.
  unfold serving. cbn [trace log set_listening].
  rewrite trace_before_serve. now norm_app.
Qed.

Lemma state_serving (a : args) (w : world) :
  timer (serving a w) = timer w /\
  clock_reads (serving a w) = clock_reads w /\
  faults (serving a w) = faults w /\
  listening (serving a w) = Some (arg_host a, resolved_port a w).
Proof.
  unfold serving, before_serve. cbn.
  destruct (state_logs (probe_events a w) (logs (install_events a w) w))
    as (A & B & _).
  destruct (state_logs (install_events a w) w) as (A' & B' & _).
  destruct (oracles_logs (probe_events a w) (logs (install_events a w) w))
    as (_ & _ & F & _).
  destruct (oracles_logs (install_events a w) w) as (_ & _ & F' & _).
  repeat split; congruence.
Qed.

Lemma state_before_serve (a : args) (w : world) :
  listening (before_serve a w) = listening w.
Proof.
  unfold before_serve.
  destruct (state_logs (probe_events a w) (logs (install_events a w) w))
    as (_ & _ & L & _).
  destruct (state_logs (install_events a w) w) as (_ & _ & L' & _).
  congruence.
Qed.

(** ** From the command line to the last event

    X7.  On a healthy network, when the server can bind the resolved port
    and the installation (if any) is not interrupted, a run of [main] is,
    in this order: the installation, the probe for a free port when the
    configured port is zero, the server listening, the client connecting
    to it, the warm-up, the first reading, one exchange per iteration, the
    second reading, the closing of the client, the report, the closing of
    the server.  It returns normally, unless the iteration count is zero
    or the clock has not advanced: then it raises [ZeroDivisionError]
    with no report, and closes the server all the same. *)
Theorem main_end_to_end (a : args) (w : world) :
  healthy w ->
  can_bind w (arg_host a) (resolved_port a w) = true ->
  install_outcome a w = Ok tt ->
  let h := arg_host a in
  let p := resolved_port a w in
  let o := msg_obj (arg_payload a) in
  let t0 := timer w (clock_reads w) in
  let t1 := timer w (S (clock_reads w)) in
  let bad := divides_by_zero (arg_iters a) (t1 - t0) in
  events_of (main a) w
  = install_events a w ++ probe_events a w
      ++ [EvServe h p; EvConnect (ws_uri h p)]
      ++ exchange o ++ [EvClock t0]
      ++ flat_map (fun _ => exchange o) (py_range (arg_iters a))
      ++ [EvClock t1; EvClientClose]
      ++ (if bad then [] else report_events o (arg_iters a) (arg_payload a) (t1 - t0))
      ++ [EvServeClose]
  /\ outcome (main a) w = (if bad then Raise ZeroDivisionError else Ok tt)
  /\ listening (snd (main a w)) = None.
Proof.
  intros Hh Hb Hi h p o t0 t1 bad.
  destruct (main a w) as [r w'] eqn:H.
  destruct (main_shape _ _ _ _ H)
    as [(e & X & _)|[(_ & X & _)|(_ & _ & rb & w2 & ER & Hr)]];
    [congruence | congruence |].
  destruct (state_serving a w) as (St & Sc & Sf & Sl).
  assert (Hh1 : healthy (serving a w)) by (intros k; rewrite Sf; apply Hh).
  destruct (run_benchmark_healthy_outcome _ _ _ _ _ _ _ Hh1 Sl ER)
    as (T2 & Hrb & L2).
  rewrite St, Sc in T2, Hrb. fold h p o t0 t1 bad in T2, Hrb.
  assert (Hc : r = rb /\ serve_close w2 = (Ok tt, w')).
  { destruct rb as [u|e|]; [exact Hr | exact Hr |].
    destruct bad; discriminate. }
  destruct Hc as [-> Hc].
  destruct (serve_close_exact _ _ _ Hc) as (_ & Ln & srv & T3 & _ & Hs).
  rewrite (Hs L2) in T3. simpl in T3.
  assert (T : trace w' = trace w ++
            (install_events a w ++ probe_events a w
               ++ [EvServe h p; EvConnect (ws_uri h p)]
               ++ exchange o ++ [EvClock t0]
               ++ flat_map (fun _ => exchange o) (py_range (arg_iters a))
               ++ [EvClock t1; EvClientClose]
               ++ (if bad then []
                   else report_events o (arg_iters a) (arg_payload a) (t1 - t0))
               ++ [EvServeClose])).
  { rewrite T3, T2, trace_serving. fold h p. now norm_app. }
  destruct (run_events _ _ _ _ _ H T) as [-> ->]. auto.
Qed.

(** ** The server is closed *)

Lemma run_benchmark_no_serve (host : string) (port iters payload : Z)
      (w : world) (r : result unit) (w' : world) :
  run_benchmark host port iters payload w = (r, w') ->
  extends_with (fun ev => is_serve_event ev = false) w w'.
Proof.
  apply (@keeps_run_benchmark (extends_with _) (fun ev => is_serve_event ev = false));
    eauto with ext; try (intros; reflexivity).
  intros ev E. destruct ev; try discriminate E; reflexivity.
Qed.

Lemma server_io_no_serve (ev : event) :
  is_server_io ev = true -> is_serve_event ev = false.
Proof. intros E. destruct ev; try discriminate E; reflexivity. Qed.

Lemma no_serve_install (a : args) (w : world) :
  filter is_serve_event (install_events a w) = [].
Proof.
  unfold install_events.
  destruct (arg_use_sdk a); [destruct (pip_result w) as [e|];
                             [destruct (is_Exception e)|]|]; reflexivity.
Qed.

Lemma no_serve_probe (a : args) (w : world) :
  filter is_serve_event (probe_events a w) = [].
Proof. unfold probe_events. destruct (arg_port a =? 0); reflexivity. Qed.

(** X3.  A run of [main] that does not wait for ever, started with
    nothing listening, leaves nothing listening.  Either the server never
    listened, or it listened once, on the resolved port, and was closed
    once, and its closing is the last thing the run did: this holds when
    the benchmark returns and when it raises. *)
Theorem server_always_closed (a : args) (w : world) :
  outcome (main a) w <> Pending ->
  listening w = None ->
  let tr := events_of (main a) w in
  listening (snd (main a w)) = None /\
  (filter is_serve_event tr = [] \/
   (filter is_serve_event tr
      = [EvServe (arg_host a) (resolved_port a w); EvServeClose] /\
    exists before, tr = before ++ [EvServeClose])).
Proof.
  intros Hn Hl tr. subst tr. unfold outcome in Hn.
  destruct (main a w) as [r w'] eqn:H. simpl in Hn. simpl snd.
  destruct (main_shape _ _ _ _ H)
    as [(e & _ & _ & ->)|[(_ & _ & _ & ->)|(_ & _ & rb & w2 & ER & Hr)]].
  - destruct (state_logs (install_events a w) w) as (_ & _ & L & _).
    split; [congruence|]. left.
    destruct (run_events _ _ _ _ _ H (trace_logs _ _)) as [_ ->].
    apply no_serve_install.
  - split; [rewrite state_before_serve; exact Hl|]. left.
    destruct (run_events _ _ _ _ _ H (trace_before_serve _ _)) as [_ ->].
    now rewrite filter_app, no_serve_install, no_serve_probe.
  - assert (Hc : serve_close w2 = (Ok tt, w')).
    { destruct rb as [u|e|]; [apply Hr | apply Hr |].
      destruct Hr as [-> _]. now elim Hn. }
    destruct (serve_close_exact _ _ _ Hc) as (_ & Ln & srv & T3 & Fs & _).
    split; [exact Ln|]. right.
    destruct (run_benchmark_no_serve _ _ _ _ _ _ _ ER) as (trb & T2 & Fb).
    assert (T : trace w' = trace w ++
              ((install_events a w ++ probe_events a w)
                 ++ [EvServe (arg_host a) (resolved_port a w)] ++ trb ++ srv)
                 ++ [EvServeClose]).
    { rewrite T3, T2, trace_serving. now norm_app. }
    destruct (run_events _ _ _ _ _ H T) as [_ ->]. split; [|eauto].
    rewrite !filter_app, no_serve_install, no_serve_probe.
    rewrite (filter_none is_serve_event _ trb (fun ev E => E) Fb).
    rewrite (filter_none is_serve_event _ srv server_io_no_serve Fs).
    reflexivity.
Qed.

(** ** What [main] never does *)

Lemma server_io_quiet (ev : event) : is_server_io ev = true -> quiet ev.
Proof. intros E. destruct ev; try discriminate E; split; reflexivity. Qed.

Lemma run_benchmark_quiet (host : string) (port iters payload : Z)
      (w : world) (r : result unit) (w' : world) :
  run_benchmark host port iters payload w = (r, w') -> extends_with quiet w w'.
Proof.
  apply (@keeps_run_benchmark (extends_with _) quiet);
    eauto with ext; try (intros; split; reflexivity).
  apply server_io_quiet.
Qed.

Lemma quiet_subprocess (tr : list event) :
  Forall quiet tr -> filter is_subprocess tr = [].
Proof. apply filter_none. now intros ev [H _]. Qed.

Lemma quiet_stderr (tr : list event) :
  Forall quiet tr -> filter is_stderr tr = [].
Proof. apply filter_none. now intros ev [_ H]. Qed.

Lemma quiet_probe (a : args) (w : world) : Forall quiet (probe_events a w).
Proof.
  unfold probe_events. destruct (arg_port a =? 0); repeat constructor.
Qed.

(** The trace of [main] after the installation is quiet. *)
Lemma main_after_install (a : args) (w : world) (r : result unit) (w' : world) :
  main a w = (r, w') ->
  exists rest, trace w' = trace w ++ install_events a w ++ rest /\ Forall quiet rest.
Proof.
  intros H.
  destruct (main_shape _ _ _ _ H)
    as [(e & _ & _ & ->)|[(_ & _ & _ & ->)|(_ & _ & rb & w2 & ER & Hr)]].
  - exists []. rewrite trace_logs, app_nil_r. auto.
  - exists (probe_events a w). rewrite trace_before_serve.
    split; [reflexivity | apply quiet_probe].
  - destruct (run_benchmark_quiet _ _ _ _ _ _ _ ER) as (trb & T2 & Fb).
    assert (Q0 : Forall quiet (probe_events a w
                                 ++ [EvServe (arg_host a) (resolved_port a w)] ++ trb)).
    { apply Forall_app. split; [apply quiet_probe|].
      constructor; [split; reflexivity | exact Fb]. }
    assert (T0 : trace w2 = trace w ++ install_events a w
                   ++ probe_events a w
                   ++ [EvServe (arg_host a) (resolved_port a w)] ++ trb).
    { rewrite T2, trace_serving. now norm_app. }
    assert (Hc : (r = Pending /\ w' = w2) \/ serve_close w2 = (Ok tt, w')).
    { destruct rb as [u|e|]; [right; apply Hr | right; apply Hr | left; exact Hr]. }
    destruct Hc as [[_ ->]|Hc].
    + eexists. split; [exact T0 | exact Q0].
    + destruct (serve_close_exact _ _ _ Hc) as (_ & _ & srv & T3 & Fs & _).
      exists ((probe_events a w
                 ++ [EvServe (arg_host a) (resolved_port a w)] ++ trb)
                ++ srv ++ [EvServeClose]).
      split; [rewrite T3, T0; now norm_app|].
      apply Forall_app. split; [exact Q0|].
      apply Forall_app. split.
      * eapply Forall_impl; [apply server_io_quiet | exact Fs].
      * repeat constructor.
Qed.

(** X9.  A run of [main] starts a subprocess only for the installation:
    never without [--use-sdk], and exactly once, with the pip command,
    with it.  It writes to stderr only when that installation fails with
    an error: one line, and nothing else in any run. *)
Theorem main_is_quiet (a : args) (w : world) :
  let tr := events_of (main a) w in
  filter is_subprocess tr
    = (if arg_use_sdk a then [EvSubprocess pip_argv] else []) /\
  filter is_stderr tr
    = (if arg_use_sdk a then
         match pip_result w with
         | Some e => if is_Exception e then [EvPrint Stderr (FailedInstall e)] else []
         | None => []
         end
       else []).
Proof.
  intros tr. subst tr. destruct (main a w) as [r w'] eqn:H.
  destruct (main_after_install _ _ _ _ H) as (rest & T & Q).
  destruct (run_events _ _ _ _ _ H T) as [_ ->].
  rewrite !filter_app, (quiet_subprocess _ Q), (quiet_stderr _ Q), !app_nil_r.
  unfold install_events.
  destruct (arg_use_sdk a); [|split; reflexivity].
  destruct (pip_result w) as [e|]; [|split; reflexivity].
  destruct (is_Exception e); split; reflexivity.
Qed.

(** X8.  When the installation is interrupted by an exception that does
    not derive from [Exception], [except Exception] lets it through:
    [main] raises it at once.  No port is probed, no server is started,
    no connection is opened and nothing but the first line is printed. *)
Theorem interrupted_install_aborts (a : args) (w : world) (e : exn) :
  arg_use_sdk a = true -> pip_result w = Some e -> is_Exception e = false ->
  outcome (main a) w = Raise e /\
  events_of (main a) w = [EvPrint Stdout installing_line; EvSubprocess pip_argv] /\
  listening (snd (main a w)) = listening w.
Proof.
  intros Hs Hp He.
  assert (Io : install_outcome a w = Raise e)
    by (unfold install_outcome; now rewrite Hs, Hp, He).
  assert (Ie : install_events a w = sdk_interrupted_events)
    by (unfold install_events; now rewrite Hs, Hp, He).
  destruct (main a w) as [r w'] eqn:H.
  destruct (main_shape _ _ _ _ H)
    as [(e' & X & -> & ->)|[(X & _)|(X & _)]]; try congruence.
  rewrite Io in X. injection X as <-.
  destruct (run_events _ _ _ _ _ H (trace_logs _ _)) as [-> ->].
  destruct (state_logs (install_events a w) w) as (_ & _ & L & _).
  rewrite Ie. simpl snd. rewrite <- Ie. auto.
Qed.

(** X4.  When the server cannot bind the resolved port, [main] raises
    [OSError] as soon as it tries: after the installation and the probe
    for a free port it does nothing more.  It does not connect, reads no
    timer and prints no report. *)
Theorem bind_failure_aborts (a : args) (w : world) :
  install_outcome a w = Ok tt ->
  can_bind w (arg_host a) (resolved_port a w) = false ->
  outcome (main a) w = Raise OSError /\
  events_of (main a) w = install_events a w ++ probe_events a w /\
  listening (snd (main a w)) = listening w.
Proof.
  intros Hi Hb. destruct (main a w) as [r w'] eqn:H.
  destruct (main_shape _ _ _ _ H)
    as [(e' & X & _)|[(_ & _ & -> & ->)|(_ & X & _)]]; try congruence.
  destruct (run_events _ _ _ _ _ H (trace_before_serve _ _)) as [-> ->].
  simpl snd. rewrite state_before_serve. auto.
Qed.

(** ** The handler and the exceptions it does not catch

    X10.  The handler raises only what [except Exception] does not
    catch: when it raises [e], then [e] does not derive from [Exception]
    and is the exception that closed the link.  Such an exception on a
    link that is already closed goes through at once, and the handler
    has done nothing. *)
Theorem handler_raises_only_non_errors (w : world) (e : exn) :
  (outcome echo_handler w = Raise e ->
   is_Exception e = false /\ link (snd (echo_handler w)) = Some e) /\
  (link w = Some e -> is_Exception e = false ->
   outcome echo_handler w = Raise e /\ events_of echo_handler w = []).
Proof.
  split.
  - unfold outcome. destruct (echo_handler w) as [r w1] eqn:E. simpl.
    intros ->. apply echo_handler_spec in E.
    destruct E as (_ & _ & _ & L & X). auto.
  - intros Hl He.
    assert (E : echo_handler w = (Raise e, w)).
    { unfold echo_handler, try_except.
      destruct (inbox ServerSide w); simpl;
        rewrite (ws_recv_closed _ _ _ Hl); destruct e; try discriminate He;
        reflexivity. }
    unfold outcome. rewrite E. split; [reflexivity|].
    apply events_of_ext. rewrite E. simpl. now rewrite app_nil_r.
Qed.

(** ** The address names the port *)

Lemma str_int_inj (n n' : Z) : str_int n = str_int n' -> n = n'.
Proof.
  unfold str_int. intros H.
  assert (N : forall z, Z.to_int z <> Decimal.Pos Decimal.Nil /\
                        Z.to_int z <> Decimal.Neg Decimal.Nil).
  { intros [|q|q]; simpl; split; try discriminate;
      intros X; injection X as X; now apply DecimalPos.Unsigned.to_uint_nonnil in X. }
  apply (f_equal NilZero.int_of_string) in H.
  destruct (N n) as [A B]. destruct (N n') as [A' B'].
  rewrite !NilZero.isi in H by assumption.
  injection H as H. now apply DecimalZ.to_int_inj.
Qed.

Lemma append_inv_head (s a b : string) : (s ++ a = s ++ b)%string -> a = b.
Proof.
  induction s as [|c s IH]; simpl; intros H; [exact H|].
  injection H as H. auto.
Qed.

Lemma ws_uri_inj (host : string) (p p' : Z) :
  ws_uri host p = ws_uri host p' -> p = p'.
Proof.
  unfold ws_uri. intros H.
  repeat apply append_inv_head in H. now apply str_int_inj.
Qed.

(** X11.  For a given host the address [ws://host:port] names its port:
    two ports give the same address only when they are equal.  So a driver
    given another port than the one the server listens on is refused:
    [run_benchmark] raises [OSError] at once and nothing else happens. *)
Theorem wrong_port_is_refused (host : string) (p p' iters payload : Z) (w : world) :
  listening w = Some (host, p') -> p <> p' ->
  ws_uri host p <> ws_uri host p' /\
  outcome (run_benchmark host p iters payload) w = Raise OSError /\
  events_of (run_benchmark host p iters payload) w = [].
Proof.
  intros Hl Hp.
  assert (U : ws_uri host p <> ws_uri host p')
    by (intros X; apply Hp; eapply ws_uri_inj; exact X).
  split; [exact U|].
  assert (E : run_benchmark host p iters payload w = (Raise OSError, w)).
  { unfold run_benchmark, async_with, bind, connect. rewrite Hl.
    apply String.eqb_neq in U. now rewrite U. }
  unfold outcome. rewrite E. split; [reflexivity|].
  apply events_of_ext. rewrite E. simpl. now rewrite app_nil_r.
Qed.

(** ** Where the exceptions of a run come from *)

Lemma closed_by_fault_refl (w : world) : closed_by_fault w w.
Proof. split; auto. Qed.

Lemma closed_by_fault_trans (a b c : world) :
  closed_by_fault a b -> closed_by_fault b c -> closed_by_fault a c.
Proof.
  intros [F1 L1] [F2 L2]. split; [congruence|].
  intros e H. destruct (L2 e H) as [X|[k X]]; [auto|].
  right. exists k. congruence.
Qed.

Lemma closed_by_fault_struck (e : exn) (w : world) :
  faults w (netops w) = Some e -> closed_by_fault w (struck e w).
Proof.
  intros F. split; [reflexivity|]. intros e' H. simpl in H. inv H.
  right. now exists (netops w).
Qed.

Lemma closed_by_fault_same (w w' : world) :
  faults w' = faults w -> link w' = link w -> closed_by_fault w w'.
Proof. intros F L. split; [exact F|]. intros e H. left. congruence. Qed.

Lemma closed_by_fault_inbox (s : side) (q : list frame) (w : world) :
  closed_by_fault w (set_inbox s q w).
Proof. apply closed_by_fault_same; now destruct s. Qed.

Lemma closed_by_fault_open (w : world) : closed_by_fault w (set_link None w).
Proof. split; [reflexivity|]. intros e H. discriminate H. Qed.

Create HintDb prov.
#[local] Hint Resolve closed_by_fault_refl closed_by_fault_trans
  closed_by_fault_struck closed_by_fault_inbox closed_by_fault_open : prov.
#[local] Hint Extern 1 (closed_by_fault _ _) =>
  (apply closed_by_fault_same; reflexivity) : prov.

Lemma echo_handler_closed_by_fault : keeps closed_by_fault echo_handler.
Proof.
  apply (@keeps_echo_handler closed_by_fault (fun _ => True)); eauto with prov.
Qed.

Lemma run_handler_closed_by_fault : keeps closed_by_fault run_handler.
Proof.
  intros w r w' H. unfold run_handler in H.
  destruct (handler_alive w); [|inv H; apply closed_by_fault_refl].
  destruct (echo_handler w) as [[u|e|] w1] eqn:E;
    pose proof (echo_handler_closed_by_fault _ _ _ E) as K;
    apply echo_handler_spec in E; destruct E as (_ & _ & _ & Hr); inv H.
  - destruct Hr as (e0 & L & _).
    eapply closed_by_fault_trans; [exact K|].
    apply closed_by_fault_same; unfold close_link; simpl; now rewrite L.
  - destruct Hr as (L & _).
    eapply closed_by_fault_trans; [exact K|].
    apply closed_by_fault_same; unfold close_link; simpl; now rewrite L.
  - exact K.
Qed.

Ltac prov_bind :=
  apply (keeps_bind closed_by_fault closed_by_fault_trans).

Ltac prov_ret := apply (keeps_ret closed_by_fault closed_by_fault_refl).

Lemma logging_closed_by_fault {A} (m : M A) :
  (forall w r w', m w = (r, w') -> faults w' = faults w /\ link w' = link w) ->
  keeps closed_by_fault m.
Proof.
  intros Hm w r w' H. destruct (Hm _ _ _ H). now apply closed_by_fault_same.
Qed.

Lemma client_recv_closed_by_fault : keeps closed_by_fault client_recv.
Proof.
  unfold client_recv. prov_bind; [apply run_handler_closed_by_fault|].
  intros _. apply (@keeps_ws_recv closed_by_fault (fun _ => True)); eauto with prov.
Qed.

Lemma client_send_closed_by_fault (d : list byte) :
  keeps closed_by_fault (client_send d).
Proof.
  apply (@keeps_ws_send closed_by_fault (fun _ => True)); eauto with prov.
Qed.

Lemma do_encode_closed_by_fault (o : json) : keeps closed_by_fault (do_encode o).
Proof. apply logging_closed_by_fault. intros w r w' H. now inv H. Qed.

Lemma perf_counter_closed_by_fault : keeps closed_by_fault perf_counter_ns.
Proof. apply logging_closed_by_fault. intros w r w' H. now inv H. Qed.

Lemma round_trip_closed_by_fault (o : json) : keeps closed_by_fault (round_trip o).
Proof.
  unfold round_trip. prov_bind; [apply do_encode_closed_by_fault|].
  intros d. prov_bind; [apply client_send_closed_by_fault|].
  intros _. prov_bind; [apply client_recv_closed_by_fault|].
  intros _. prov_ret.
Qed.

(** An exception of a network operation is the one that closed the
    link. *)
Lemma ws_send_raise (s : side) (m : frame) (w : world) (e : exn) (w' : world) :
  ws_send s m w = (Raise e, w') -> link w' = Some e.
Proof.
  intros H. destruct (link w) as [e0|] eqn:E.
  - rewrite (ws_send_closed _ _ _ _ E) in H. now inv H.
  - destruct (faults w (netops w)) as [e0|] eqn:F.
    + rewrite (ws_send_fault _ _ _ _ E F) in H. now inv H.
    + rewrite (ws_send_open _ _ _ E F) in H. discriminate.
Qed.

Lemma ws_recv_raise (s : side) (w : world) (e : exn) (w' : world) :
  ws_recv s w = (Raise e, w') -> link w' = Some e.
Proof.
  intros H. destruct (link w) as [e0|] eqn:E.
  - rewrite (ws_recv_closed _ _ _ E) in H. now inv H.
  - destruct (faults w (netops w)) as [e0|] eqn:F.
    + rewrite (ws_recv_fault _ _ _ E F) in H. now inv H.
    + destruct (inbox s w) as [|m rest] eqn:I.
      * rewrite (ws_recv_empty _ _ E F I) in H. discriminate.
      * rewrite (ws_recv_frame _ _ _ _ E F I) in H. discriminate.
Qed.

Lemma client_recv_raise (w : world) (e : exn) (w' : world) :
  client_recv w = (Raise e, w') -> link w' = Some e.
Proof.
  unfold client_recv, bind. intros H.
  destruct (run_handler w) as [r1 w1] eqn:E.
  destruct (run_handler_spec _ _ _ E) as [-> _].
  now apply ws_recv_raise in H.
Qed.

Lemma round_trip_raise (o : json) (w : world) (e : exn) (w' : world) :
  round_trip o w = (Raise e, w') -> link w' = Some e.
Proof.
  unfold round_trip, bind. rewrite do_encode_spec. intros H.
  destruct (client_send _ _) as [[u|e1|] w1] eqn:E1.
  - destruct (client_recv w1) as [[m|e2|] w2] eqn:E2; try discriminate.
    inv H. now apply client_recv_raise in E2.
  - inv H. unfold client_send in E1. now apply ws_send_raise in E1.
  - discriminate.
Qed.

Lemma timed_loop_raise (o : json) (l : list Z) : forall w e w',
  for_each l (fun _ => round_trip o) w = (Raise e, w') -> link w' = Some e.
Proof.
  induction l as [|x l IH]; intros w e w' H; simpl in H; [discriminate|].
  unfold bind in H. destruct (round_trip o w) as [[u|e1|] w1] eqn:E.
  - eauto.
  - inv H. now apply round_trip_raise in E.
  - discriminate.
Qed.

Lemma session_raise (o : json) (iters : Z) (w : world) (e : exn) (w' : world) :
  session o iters w = (Raise e, w') -> link w' = Some e.
Proof.
  unfold session, bind. rewrite do_encode_spec. intros H.
  destruct (client_send _ _) as [[u|e1|] w1] eqn:E1;
    [| inv H; unfold client_send in E1; now apply ws_send_raise in E1
     | discriminate].
  destruct (client_recv w1) as [[m|e2|] w2] eqn:E2;
    [| inv H; now apply client_recv_raise in E2 | discriminate].
  unfold perf_counter_ns at 1 in H.
  destruct (for_each _ _ _) as [[u'|e3|] w4] eqn:E3;
    [discriminate | inv H; now apply timed_loop_raise in E3 | discriminate].
Qed.

Lemma session_closed_by_fault (o : json) (iters : Z) :
  keeps closed_by_fault (session o iters).
Proof.
  unfold session. prov_bind; [apply do_encode_closed_by_fault|].
  intros d. prov_bind; [apply client_send_closed_by_fault|].
  intros _. prov_bind; [apply client_recv_closed_by_fault|].
  intros _. prov_bind; [apply perf_counter_closed_by_fault|].
  intros t0. prov_bind.
  { apply (keeps_for_each closed_by_fault closed_by_fault_refl closed_by_fault_trans).
    intros; apply round_trip_closed_by_fault. }
  intros _. prov_bind; [apply perf_counter_closed_by_fault|].
  intros t1. prov_ret.
Qed.

(** X13.  [run_benchmark] raises nothing of its own making but the
    division by zero of its metrics.  When a run raises [e], then [e] is
    [ZeroDivisionError], or [OSError] because nothing listens at the
    address, or one of the faults of the network: the exception that
    broke the link reaches the caller as it is. *)
Theorem exceptions_of_a_run (host : string) (port iters payload : Z)
        (w : world) (e : exn) :
  outcome (run_benchmark host port iters payload) w = Raise e ->
  e = ZeroDivisionError \/ e = OSError \/ fault_of w e.
Proof.
  unfold outcome.
  destruct (run_benchmark host port iters payload w) as [r w'] eqn:H.
  simpl. intros ->. pose proof H as H0.
  unfold run_benchmark, async_with, bind in H.
  set (uri := ws_uri host port) in *. set (o := msg_obj payload) in *.
  destruct (connect uri w) as [[u|e1|] w1] eqn:E1.
  - assert (L1 : link w1 = None /\ faults w1 = faults w).
    { revert E1. unfold connect.
      destruct (listening w) as [[h p]|]; [|discriminate].
      destruct (String.eqb uri (ws_uri h p)); [|discriminate].
      unfold bind, net_check. simpl.
      destruct (faults w (netops w)); [discriminate|].
      intros X. inv X. simpl. auto. }
    destruct L1 as [L1 F1]. destruct u.
    destruct (session o iters w1) as [[[t0 t1]|e2|] w2] eqn:E2.
    + destruct (run_benchmark_after_session _ _ _ _ _ _ _ _ _ _ _ E1 E2 H0)
        as (post & _ & Hr).
      destruct Hr as (-> & _). now left.
    + destruct (client_close w2) as [rc w3] eqn:E3.
      destruct (client_close_spec _ _ _ E3) as [-> _]. simpl in H. inv H.
      pose proof (session_raise _ _ _ _ _ E2) as L2.
      destruct (session_closed_by_fault _ _ _ _ _ E2) as [_ P2].
      destruct (P2 _ L2) as [X|[k X]]; [congruence|].
      right; right. exists k. now rewrite <- F1.
    + discriminate.
  - inv H. revert E1. unfold connect.
    destruct (listening w) as [[h p]|]; [|intros X; inv X; auto].
    destruct (String.eqb uri (ws_uri h p)); [|intros X; inv X; auto].
    unfold bind, net_check. simpl.
    destruct (faults w (netops w)) as [e0|] eqn:F; [|discriminate].
    intros X. inv X. right; right. now exists (netops w).
  - discriminate.
Qed.

End Properties.

(** * The model at work

    The theorems above, applied in the worlds of [Example] on the
    reference runtime. *)
Import Example.

#[local] Existing Instance rt_json.

(** In exact arithmetic the two metrics are [T / N] nanoseconds and [N]
    operations per [T / 1e9] seconds. *)
Lemma exact_metrics (T N : Z) :
  N <> 0 -> T <> 0 ->
  exists x y : Q,
    ns_per_of T N = Ok x /\ ops_per_sec_of T N = Ok y /\
    (x == inject_Z T / inject_Z N)%Q /\
    (y == inject_Z N / (inject_Z T / inject_Z 1000000000))%Q.
Proof.
  intros HN HT. unfold ns_per_of, ops_per_sec_of.
  destruct (Z.eqb_spec N 0) as [|_]; [contradiction|].
  destruct (Z.eqb_spec T 0) as [|_]; [contradiction|].
  eexists _, _. split; [reflexivity|]. split; [reflexivity|].
  split; [reflexivity|]. simpl.
  assert (HQ : ~ (inject_Z T == 0)%Q).
  { unfold Qeq. simpl. lia. }
  field. exact HQ.
Qed.

(** C1 on a process whose server listens: zero iterations. *)
Lemma zero_iters_divides_by_zero_witness :
  outcome (run_benchmark localhost 8765 0 1024) listening_at_8765
    = Raise ZeroDivisionError /\
  clock_count (events_of (run_benchmark localhost 8765 0 1024) listening_at_8765)
    = 2%nat /\
  timed_segment
    (client_view (events_of (run_benchmark localhost 8765 0 1024) listening_at_8765))
    = [] /\
  filter is_print (events_of (run_benchmark localhost 8765 0 1024) listening_at_8765)
    = [].
Proof.
  apply (proj2 (proj2 (zero_iters_divides_by_zero localhost 8765 1024
                         listening_at_8765))).
  - intros k. reflexivity.
  - reflexivity.
Defined.

(** The same from the command line: [--iters 0] on a fresh process. *)
Example main_with_zero_iters :
  outcome (main (mkArgs 0 1024 localhost 0 false)) fresh = Raise ZeroDivisionError
  /\ filter is_print (events_of (main (mkArgs 0 1024 localhost 0 false)) fresh) = [].
Proof. split; vm_compute; reflexivity. Qed.

(** C2 on a fresh process where pip succeeds. *)
Lemma use_sdk_keeps_builtin_path_witness :
  main (mkArgs 100 16 localhost 0 true) fresh
  = main (mkArgs 100 16 localhost 0 false) (logs sdk_installed_events fresh).
Proof.
  apply (proj1 (use_sdk_keeps_builtin_path (mkArgs 100 16 localhost 0 true) fresh
                  eq_refl)).
  reflexivity.
Defined.

(** C3 with three iterations. *)
Lemma timed_loop_round_trips_witness :
  let o := msg_obj 16 in
  let tr := events_of (run_benchmark localhost 8765 3 16) listening_at_8765 in
  timed_segment (client_view tr)
    = round_trip_events o (Binary (encode o))
        ++ round_trip_events o (Binary (encode o))
        ++ round_trip_events o (Binary (encode o))
  /\ Z.of_nat (length (filter is_client_send (timed_segment (client_view tr)))) = 3.
Proof.
  intros o tr.
  assert (H13 : 1 <= 3) by lia.
  destruct (timed_loop_round_trips localhost 8765 3 16 listening_at_8765 H13)
    as [Hseg Htwice].
  assert (Hc : clock_count tr = 2%nat).
  { apply Htwice; [intros k; reflexivity | reflexivity]. }
  exact (Hseg Hc).
Defined.

(** C4 on three frames, one of them empty. *)
Lemma echo_fidelity_witness :
  outcome echo_handler with_three_frames = Pending /\
  inbox_client (snd (echo_handler with_three_frames)) = three_frames /\
  inbox_server (snd (echo_handler with_three_frames)) = [] /\
  events_of echo_handler with_three_frames = flat_map echo_events three_frames.
Proof.
  apply (proj2 (echo_fidelity with_three_frames)).
  - intros k. reflexivity.
  - reflexivity.
Defined.

(** The same on a link that breaks: one reply, then silence. *)
Example echo_on_breaking_link :
  outcome echo_handler with_three_frames_breaking = Ok tt /\
  inbox_client (snd (echo_handler with_three_frames_breaking)) = [Text "ping"] /\
  server_log (snd (run_handler with_three_frames_breaking)) = [].
Proof. repeat split; vm_compute; reflexivity. Qed.

(** C5 with three iterations. *)
Lemma warm_up_precedes_timer_witness :
  let o := msg_obj 16 in
  before_timer
    (client_view (events_of (run_benchmark localhost 8765 3 16) listening_at_8765))
  = [ EvConnect "ws://127.0.0.1:8765"; EvEncode o;
      EvSend ClientSide (Binary (encode o));
      EvRecv ClientSide (Binary (encode o)) ].
Proof.
  intros o.
  apply (warm_up_precedes_timer localhost 8765 3 16 listening_at_8765).
  vm_compute. lia.
Defined.




(** C8 with port 0 on a fresh process. *)
Lemma port_resolution_witness :
  port_events (events_of (main (mkArgs 2 16 localhost 0 false)) fresh)
  = [ EvProbePort 49152; EvServe localhost 49152;
      EvConnect "ws://127.0.0.1:49152" ].
Proof.
  apply (proj2 (port_resolution (mkArgs 2 16 localhost 0 false) fresh)).
  - intros k. reflexivity.
  - reflexivity.
  - intros e H. discriminate H.
Defined.

(** The same with a port given on the command line. *)
Example port_given :
  port_events (events_of (main (mkArgs 2 16 localhost 8080 false)) fresh)
  = [ EvServe localhost 8080; EvConnect "ws://127.0.0.1:8080" ].
Proof. vm_compute. reflexivity. Qed.

(** C9 on a link that breaks while the handler works. *)
Lemma handler_swallows_errors_witness :
  (outcome echo_handler with_three_frames_breaking = Ok tt \/
   outcome echo_handler with_three_frames_breaking = Pending) /\
  (link (snd (echo_handler with_three_frames_breaking)) <> None ->
   outcome echo_handler with_three_frames_breaking = Ok tt) /\
  Forall (fun ev => is_server_io ev = true)
         (events_of echo_handler with_three_frames_breaking) /\
  outcome run_handler with_three_frames_breaking = Ok tt /\
  server_log (snd (run_handler with_three_frames_breaking))
  = server_log with_three_frames_breaking.
Proof.
  apply (handler_swallows_errors with_three_frames_breaking).
  split.
  - intros e H. discriminate H.
  - intros k e H. simpl in H. destruct (Nat.eqb k 2); inversion H. reflexivity.
Defined.


(** The run with a payload of -5 goes to its end and prints its report. *)
Example main_with_negative_payload :
  outcome (main (mkArgs 2 (-5) localhost 8080 false)) fresh = Ok tt /\
  filter is_print (events_of (main (mkArgs 2 (-5) localhost 8080 false)) fresh)
  = [ EvPrint Stdout (Line "Python microbench: iters=2 payload=-5 bytes/op=51");
      EvPrint Stdout (MetricsLine (inject_Z 250000 / inject_Z 1000000000)%Q
                                  (inject_Z 250000 / inject_Z 2)%Q
                                  (inject_Z 1000000000 * inject_Z 2 / inject_Z 250000)%Q) ].
Proof. split; vm_compute; reflexivity. Qed.


(** ** More runs *)

(** X1 on a run that returns and on a run whose link breaks. *)
Example report_of_a_good_run :
  filter is_print (events_of (run_benchmark localhost 8765 3 16) listening_at_8765)
  = [ EvPrint Stdout (Line "Python microbench: iters=3 payload=16 bytes/op=67");
      EvPrint Stdout (MetricsLine (inject_Z 250000 / inject_Z 1000000000)%Q
                                  (inject_Z 250000 / inject_Z 3)%Q
                                  (inject_Z 1000000000 * inject_Z 3 / inject_Z 250000)%Q) ].
Proof. vm_compute. reflexivity. Qed.

Example no_report_on_a_breaking_link :
  outcome (run_benchmark localhost 8765 3 16) breaking = Raise ConnectionClosedError /\
  filter is_print (events_of (run_benchmark localhost 8765 3 16) breaking) = [].
Proof. split; vm_compute; reflexivity. Qed.

(** X2 on a link that breaks during the warm-up. *)
Lemma connection_always_closed_witness :
  filter is_connection_event
    (events_of (run_benchmark localhost 8765 3 16) breaking) = [] \/
  (filter is_connection_event
     (events_of (run_benchmark localhost 8765 3 16) breaking)
     = [EvConnect (ws_uri localhost 8765); EvClientClose] /\
   link (snd (run_benchmark localhost 8765 3 16 breaking)) <> None /\
   handler_alive (snd (run_benchmark localhost 8765 3 16 breaking)) = false).
Proof.
  apply (connection_always_closed localhost 8765 3 16 breaking).
  vm_compute. discriminate.
Defined.

(** X3 on a fresh process with zero iterations: the run raises, and the
    server is closed. *)
Lemma server_always_closed_witness :
  listening (snd (main (mkArgs 0 16 localhost 0 false) fresh)) = None /\
  (filter is_serve_event (events_of (main (mkArgs 0 16 localhost 0 false)) fresh) = []
   \/
   (filter is_serve_event (events_of (main (mkArgs 0 16 localhost 0 false)) fresh)
      = [EvServe localhost (resolved_port (mkArgs 0 16 localhost 0 false) fresh);
         EvServeClose] /\
    exists before,
      events_of (main (mkArgs 0 16 localhost 0 false)) fresh
      = before ++ [EvServeClose])).
Proof.
  apply (server_always_closed (mkArgs 0 16 localhost 0 false) fresh).
  - vm_compute. discriminate.
  - reflexivity.
Defined.

(** X4 where no address can be bound. *)
Lemma bind_failure_aborts_witness :
  outcome (main (mkArgs 100 16 localhost 0 false)) port_taken = Raise OSError /\
  events_of (main (mkArgs 100 16 localhost 0 false)) port_taken
  = install_events (mkArgs 100 16 localhost 0 false) port_taken
      ++ probe_events (mkArgs 100 16 localhost 0 false) port_taken /\
  listening (snd (main (mkArgs 100 16 localhost 0 false) port_taken))
  = listening port_taken.
Proof.
  apply (bind_failure_aborts (mkArgs 100 16 localhost 0 false) port_taken);
    reflexivity.
Defined.

(** X5 with three iterations. *)
Lemma healthy_run_outcome_witness :
  filter is_clock (events_of (run_benchmark localhost 8765 3 16) listening_at_8765)
  = [EvClock 1000000; EvClock 1250000] /\
  outcome (run_benchmark localhost 8765 3 16) listening_at_8765 = Ok tt.
Proof.
  apply (healthy_run_outcome localhost 8765 3 16 listening_at_8765).
  - intros k. reflexivity.
  - reflexivity.
Defined.

(** X7 from the command line [--iters 2 --payload 16]. *)
Lemma main_end_to_end_witness :
  let a := mkArgs 2 16 localhost 0 false in
  let o := msg_obj 16 in
  events_of (main a) fresh
  = [ EvProbePort 49152; EvServe localhost 49152;
      EvConnect "ws://127.0.0.1:49152" ]
      ++ exchange o ++ [EvClock 1000000]
      ++ exchange o ++ exchange o
      ++ [EvClock 1250000; EvClientClose]
      ++ report_events o 2 16 250000
      ++ [EvServeClose]
  /\ outcome (main a) fresh = Ok tt
  /\ listening (snd (main a fresh)) = None.
Proof.
  intros a o.
  apply (main_end_to_end a fresh).
  - intros k. reflexivity.
  - reflexivity.
  - reflexivity.
Defined.

(** X8 with pip interrupted from the keyboard. *)
Lemma interrupted_install_aborts_witness :
  outcome (main (mkArgs 100 16 localhost 0 true)) pip_interrupted
  = Raise KeyboardInterrupt /\
  events_of (main (mkArgs 100 16 localhost 0 true)) pip_interrupted
  = [EvPrint Stdout installing_line; EvSubprocess pip_argv] /\
  listening (snd (main (mkArgs 100 16 localhost 0 true) pip_interrupted))
  = listening pip_interrupted.
Proof.
  apply (interrupted_install_aborts (mkArgs 100 16 localhost 0 true)
           pip_interrupted KeyboardInterrupt); reflexivity.
Defined.

(** X9 when pip fails: one line on stderr, and the run goes on. *)
Example stderr_when_pip_fails :
  outcome (main (mkArgs 2 16 localhost 0 true)) pip_failing = Ok tt /\
  filter is_stderr (events_of (main (mkArgs 2 16 localhost 0 true)) pip_failing)
  = [EvPrint Stderr (FailedInstall (CalledProcessError 1))].
Proof. split; vm_compute; reflexivity. Qed.

(** X10 on a connection closed by an interrupt. *)
Lemma handler_raises_only_non_errors_witness :
  outcome echo_handler with_three_frames_interrupted = Raise KeyboardInterrupt /\
  events_of echo_handler with_three_frames_interrupted = [].
Proof.
  apply (proj2 (handler_raises_only_non_errors with_three_frames_interrupted
                  KeyboardInterrupt)); reflexivity.
Defined.

(** X11: the server listens on 8765, the driver is given 9000. *)
Lemma wrong_port_is_refused_witness :
  ws_uri localhost 9000 <> ws_uri localhost 8765 /\
  outcome (run_benchmark localhost 9000 3 16) listening_at_8765 = Raise OSError /\
  events_of (run_benchmark localhost 9000 3 16) listening_at_8765 = [].
Proof.
  apply (wrong_port_is_refused localhost 9000 8765 3 16 listening_at_8765).
  - reflexivity.
  - lia.
Defined.

(** X12 with [--iters -2]. *)
Lemma negative_iters_reports_witness :
  outcome (run_benchmark localhost 8765 (-2) 16) listening_at_8765 = Ok tt /\
  timed_segment
    (client_view (events_of (run_benchmark localhost 8765 (-2) 16) listening_at_8765))
  = [] /\
  In (EvPrint Stdout
        (MetricsLine (float_div (float_of_int 250000) float_1e9)
                     (int_truediv 250000 (-2))
                     (float_div (float_mul float_1e9 (float_of_int (-2)))
                                (float_of_int 250000))))
     (events_of (run_benchmark localhost 8765 (-2) 16) listening_at_8765).
Proof.
  apply (negative_iters_reports localhost 8765 (-2) 16 listening_at_8765).
  - lia.
  - intros k. reflexivity.
  - reflexivity.
  - vm_compute. discriminate.
Defined.

(** X13 on a link that breaks: the driver raises the fault itself. *)
Lemma exceptions_of_a_run_witness :
  ConnectionClosedError = ZeroDivisionError \/
  ConnectionClosedError = OSError \/
  fault_of breaking ConnectionClosedError.
Proof.
  apply (exceptions_of_a_run localhost 8765 3 16 breaking ConnectionClosedError).
  vm_compute. reflexivity.
Defined.
